(** * War Thunder wiki aircraft crawler: extraction and classification pipeline

    Shallow embedding of [final_comprehensive_aircraft_crawler.py]:
    [extract_aircraft_from_html_content], [is_aircraft_name] and
    [save_aircraft_to_file], together with the fragment of Python's [str],
    [set] and [re] that these functions use.

    A Python [str] is a sequence of code points.  Characters are modelled by
    [ascii], read as the code points U+0000 .. U+00FF; on that range the
    character classes of [re] ([\s], [\d], [\w]) and [str.lower] are the
    ones CPython implements. *)

From Stdlib Require Import String Ascii List Bool Arith NArith Lia Sorted Permutation.
Import ListNotations.
Local Open Scope list_scope.

(* ================================================================== *)
(** ** Python strings and sets *)

Module Py.

Definition str := list ascii.

(** A string literal of the source. *)
Definition lit (s : string) : str := list_ascii_of_string s.

Definition ord (c : ascii) : N := N_of_ascii c.

Definition between (lo hi : N) (c : ascii) : bool :=
  ((lo <=? ord c) && (ord c <=? hi))%N.

Definition dquote : ascii := ascii_of_N 34.
Definition newline : ascii := ascii_of_N 10.

(** [[A-Z]], [[a-z]], [[A-Za-z]], [[0-9]] (and [\d] below U+0100). *)
Definition is_upper (c : ascii) : bool := between 65 90 c.
Definition is_lower (c : ascii) : bool := between 97 122 c.
Definition is_alpha (c : ascii) : bool := is_upper c || is_lower c.
Definition is_digit (c : ascii) : bool := between 48 57 c.

(** [\s] of a [str] pattern: the ASCII white space, the separators
    U+001C .. U+001F, NEL U+0085 and NBSP U+00A0. *)
Definition is_space (c : ascii) : bool :=
  between 9 13 c || between 28 32 c || (ord c =? 133)%N || (ord c =? 160)%N.

(** [\w] of a [str] pattern: alphanumeric code points and the underscore. *)
Definition is_word (c : ascii) : bool :=
  is_digit c || is_alpha c || (ord c =? 95)%N
  || (ord c =? 170)%N || between 178 179 c || (ord c =? 181)%N
  || between 185 186 c || between 188 190 c
  || between 192 214 c || between 216 246 c || between 248 255 c.

(** [str.lower], one code point at a time. *)
Definition lower_char (c : ascii) : ascii :=
  if is_upper c || (between 192 222 c && negb (ord c =? 215)%N)
  then ascii_of_N (ord c + 32) else c.

Definition lower (s : str) : str := map lower_char s.

(** [a == b] on strings. *)
Fixpoint eqb_str (a b : str) : bool :=
  match a, b with
  | [], [] => true
  | x :: a', y :: b' => Ascii.eqb x y && eqb_str a' b'
  | _, _ => false
  end.

(** [s.startswith(p)]; the test made at each offset by [p in s]. *)
Fixpoint starts_with (p s : str) : bool :=
  match p, s with
  | [], _ => true
  | _ :: _, [] => false
  | x :: p', y :: s' => Ascii.eqb x y && starts_with p' s'
  end.

(** [needle in hay] on strings. *)
Fixpoint contains (needle hay : str) : bool :=
  starts_with needle hay
  || match hay with
     | [] => false
     | _ :: hay' => contains needle hay'
     end.

(** [os.path.join(a, b)] on POSIX paths. *)
Definition path_join (a b : str) : str :=
  if starts_with (lit "/") b then b
  else if match rev a with
          | [] => true
          | c :: _ => Ascii.eqb c "/"
          end
       then a ++ b
       else a ++ lit "/" ++ b.

(** [x in l] on a list of strings. *)
Definition in_list (x : str) (l : list str) : bool := existsb (eqb_str x) l.

(** [any(f(x) for x in l)]. *)
Definition any {A : Type} (f : A -> bool) (l : list A) : bool := existsb f l.

(** [a <= b] on strings: lexicographic on code points. *)
Fixpoint str_leb (a b : str) : bool :=
  match a, b with
  | [], _ => true
  | _ :: _, [] => false
  | x :: a', y :: b' =>
      if (ord x <? ord y)%N then true
      else if (ord y <? ord x)%N then false
      else str_leb a' b'
  end.

(** [sorted(l, key=key)]: the stable sort by [key].  An element goes in
    front of the first one whose key is not smaller, so elements with equal
    keys keep their order. *)
Section Sorted.
Context {A : Type} (key : A -> str).

Fixpoint insert_sorted (x : A) (l : list A) : list A :=
  match l with
  | [] => [x]
  | y :: l' =>
      if str_leb (key x) (key y) then x :: y :: l'
      else y :: insert_sorted x l'
  end.

Definition sorted (l : list A) : list A := fold_right insert_sorted [] l.
End Sorted.

(** A [set] of strings.  The table is kept in slot order, which depends on
    the string hash of the running interpreter; [hash] is that function.
    The crawler only uses [in] and [add]. *)
Definition pyset := list str.

Definition set_empty : pyset := [].

Definition set_contains (x : str) (s : pyset) : bool := existsb (eqb_str x) s.

Fixpoint place (hash : str -> N) (x : str) (s : pyset) : pyset :=
  match s with
  | [] => [x]
  | y :: s' => if (hash x <=? hash y)%N then x :: s else y :: place hash x s'
  end.

Definition set_add (hash : str -> N) (x : str) (s : pyset) : pyset :=
  if set_contains x s then s else place hash x s.

End Py.

(* ================================================================== *)
(** ** The fragment of [re] used by the crawler *)

Module Re.
Import Py.

(** A pattern is a sequence of atoms.  Every quantifier of the source is
    applied to one character class, which [Rep] covers: [+] is
    [Rep p 1 None], [?] is [Rep p 0 (Some 1)], [{2,3}] is
    [Rep p 2 (Some 3)]. *)
Inductive atom : Type :=
| Chr (p : ascii -> bool)
| Rep (p : ascii -> bool) (lo : nat) (hi : option nat)
| Bol
| Eol
| GOpen
| GClose.

Definition pattern := list atom.

(** The literal text [s] as a pattern. *)
Definition lits (s : string) : pattern := map (fun c => Chr (Ascii.eqb c)) (lit s).

(** Greedy choice: the first [k] from [n] down to [lo] at which [f] succeeds. *)
Fixpoint tries {A : Type} (f : nat -> option A) (n lo : nat) : option A :=
  if n <? lo then None
  else match f n with
       | Some r => Some r
       | None => match n with
                 | O => None
                 | S n' => tries f n' lo
                 end
       end.

(** Length of the longest prefix of [s] in class [p], capped by [hi]. *)
Fixpoint span_len (p : ascii -> bool) (hi : option nat) (s : str) : nat :=
  match hi with
  | Some O => O
  | _ =>
      match s with
      | c :: s' => if p c then S (span_len p (option_map pred hi) s') else O
      | [] => O
      end
  end.

(** Text added to the group that is open, if one is. *)
Definition grow (g : option str) (w : str) : option str :=
  match g with
  | Some u => Some (u ++ w)
  | None => None
  end.

Definition group_text (g : option str) : str :=
  match g with
  | Some u => u
  | None => []
  end.

(** The backtracking matcher at one position.  [bos] tells whether the
    position is the start of the subject, [g] is the text of the open group,
    [caps] the closed groups so far.  The result is the groups and the rest
    of the subject after the match. *)
Fixpoint run (pat : pattern) (bos : bool) (s : str) (g : option str)
    (caps : list str) : option (list str * str) :=
  match pat with
  | [] => Some (caps, s)
  | Chr p :: pat' =>
      match s with
      | c :: s' => if p c then run pat' false s' (grow g [c]) caps else None
      | [] => None
      end
  | Rep p lo hi :: pat' =>
      tries (fun k => run pat' (bos && (k =? 0)) (skipn k s)
                          (grow g (firstn k s)) caps)
            (span_len p hi s) lo
  | Bol :: pat' => if bos then run pat' bos s g caps else None
  | Eol :: pat' =>
      match s with
      | [] => run pat' bos s g caps
      | [c] => if Ascii.eqb c newline then run pat' bos s g caps else None
      | _ => None
      end
  | GOpen :: pat' => run pat' bos s (Some []) caps
  | GClose :: pat' => run pat' bos s None (caps ++ [group_text g])
  end.

(** [re.match(pat, s)]. *)
Definition re_match (pat : pattern) (s : str) : option (list str * str) :=
  run pat true s None [].

(** [re.search(pat, s)]: the first position at which the pattern matches. *)
Fixpoint search_from (pat : pattern) (bos : bool) (s : str)
    : option (list str * str) :=
  match run pat bos s None [] with
  | Some r => Some r
  | None => match s with
            | [] => None
            | _ :: s' => search_from pat false s'
            end
  end.

Definition re_search (pat : pattern) (s : str) : option (list str * str) :=
  search_from pat true s.

(** Truth value of a match object or [None]. *)
Definition truthy {A : Type} (m : option A) : bool :=
  match m with
  | Some _ => true
  | None => false
  end.

(** [re.findall(pat, s)]: the groups of the leftmost matches that do not
    overlap.  [skip] counts the characters still covered by the last match;
    after a match of [n] characters the scan resumes [n] characters on (one
    character on after an empty match). *)
Fixpoint scan (pat : pattern) (bos : bool) (skip : nat) (s : str)
    : list (list str) :=
  match s with
  | [] =>
      match skip with
      | O => match run pat bos [] None [] with
             | Some (caps, _) => [caps]
             | None => []
             end
      | S _ => []
      end
  | _ :: s' =>
      match skip with
      | S k => scan pat false k s'
      | O =>
          match run pat bos s None [] with
          | Some (caps, rest) =>
              caps :: scan pat false (pred (length s - length rest)) s'
          | None => scan pat false 0 s'
          end
      end
  end.

Definition findall (pat : pattern) (s : str) : list (list str) :=
  scan pat true 0 s.

(** What it means for a pattern to match at a position, without the search
    order: [Matches pat bos s rest] when [pat] matches a prefix of [s] that
    leaves [rest]. *)
Inductive Matches : pattern -> bool -> str -> str -> Prop :=
| M_nil : forall bos s, Matches [] bos s s
| M_chr : forall p pat bos c s rest,
    p c = true -> Matches pat false s rest ->
    Matches (Chr p :: pat) bos (c :: s) rest
| M_rep : forall p lo hi pat bos w s rest,
    Forall (fun c => p c = true) w ->
    lo <= length w ->
    (forall h, hi = Some h -> length w <= h) ->
    Matches pat (bos && (length w =? 0)) s rest ->
    Matches (Rep p lo hi :: pat) bos (w ++ s) rest
| M_bol : forall pat s rest,
    Matches pat true s rest -> Matches (Bol :: pat) true s rest
| M_eol : forall pat bos s rest,
    s = [] \/ s = [newline] ->
    Matches pat bos s rest -> Matches (Eol :: pat) bos s rest
| M_open : forall pat bos s rest,
    Matches pat bos s rest -> Matches (GOpen :: pat) bos s rest
| M_close : forall pat bos s rest,
    Matches pat bos s rest -> Matches (GClose :: pat) bos s rest.

End Re.

(* ================================================================== *)
(** ** The crawler *)

Module Crawler.
Import Py Re.

(** An aircraft: [(name, url)]. *)
Definition aircraft := (str * str)%type.

Definition default_base_url : str := lit "https://old-wiki.warthunder.com".

(** The link pattern [href=Q(/[^Q]+)Q\s+title=Q([^Q]+)Q], where [Q] stands
    for the double quote character. *)
Definition is_quote (c : ascii) : bool := Ascii.eqb dquote c.
Definition not_quote (c : ascii) : bool := negb (Ascii.eqb dquote c).

Definition link_pattern : pattern :=
  lits "href=" ++
  [Chr is_quote; GOpen; Chr (Ascii.eqb "/"); Rep not_quote 1 None; GClose;
   Chr is_quote; Rep is_space 1 None] ++
  lits "title=" ++
  [Chr is_quote; GOpen; Rep not_quote 1 None; GClose; Chr is_quote].

(** The markers looked for in the lower-cased href. *)
Definition href_skips : list str := map lit
  ["category:"; "help:"; "special:"; "file:"; "template:"; "user:"; "talk:";
   "index.php"; "aviation"; "ground_vehicles"; "fleet"; "main_page";
   "recent_changes"; "random"; "whatlinkshere"; "recentchangeslinked";
   "specialpages"; "printable"; "images/"; "resources/"]%string.

(** The phrases looked for in the lower-cased title. *)
Definition title_skips : list str := map lit
  ["category"; "discussion"; "view source"; "view history"; "aviation";
   "ground vehicles"; "fleet"; "helicopters"; "help"; "navigation";
   "recent changes"; "random page"; "what links here"; "related changes";
   "special pages"; "printable version"; "permanent link"; "page information"]%string.

Definition skip_terms : list str := map lit
  ["category"; "discussion"; "view source"; "view history"; "aviation";
   "ground vehicles"; "fleet"; "helicopters"; "help"; "navigation";
   "recent changes"; "random page"; "what links here"; "related changes";
   "special pages"; "printable version"; "permanent link"; "page information";
   "tutorial"; "guide"; "book of records"; "climbing the ranks"; "media";
   "grumman aircraft"; "american air forces"; "pages in category";
   "terms and conditions"; "privacy policy"; "contribution agreement";
   "heinkel aircraft"; "german aircraft"]%string.

Definition aircraft_names : list str := map lit
  ["walrus"; "osprey"; "catalina"; "mariner"; "hurricane"; "spitfire"; "typhoon";
   "tempest"; "mustang"; "thunderbolt"; "lightning"; "meteor"; "vampire"; "venom";
   "hunter"; "harrier"; "jaguar"; "tornado"; "phantom"; "eagle"; "falcon"; "hornet";
   "tomcat"; "corsair"; "hellcat"; "wildcat"; "bearcat"; "skyraider"; "skyhawk";
   "intruder"; "prowler"; "viking"; "hawkeye"; "greyhound"; "seahawk"; "super";
   "sabre"; "starfighter"; "freedom"; "fighting"; "crusader"; "vigilante";
   "fury"; "gladiator"; "nimrod"; "swordfish"; "hampden"; "blenheim"; "beaufort";
   "wellington"; "lancaster"; "stirling"; "halifax"; "mosquito"; "beaufighter";
   "firefly"; "seafire"; "wyvern"; "attacker"; "scimitar"; "buccaneer"; "canberra";
   "javelin"; "swift"; "vixen"; "strikemaster"; "firecrest"; "brigand"]%string.

(** [r'[A-Za-z]'] and [r'[0-9\-]'] *)
Definition letter_pattern : pattern := [Chr is_alpha].

Definition is_digit_or_hyphen (c : ascii) : bool := is_digit c || Ascii.eqb c "-".
Definition digit_or_hyphen_pattern : pattern := [Chr is_digit_or_hyphen].

(** The class of [^[A-Za-z0-9\-\.\(\)\s/\'\Q_%]+$], where [Q] stands for
    the double quote character. *)
Definition is_allowed (c : ascii) : bool :=
  is_alpha c || is_digit c
  || Ascii.eqb c "-" || Ascii.eqb c "." || Ascii.eqb c "(" || Ascii.eqb c ")"
  || is_space c || Ascii.eqb c "/" || Ascii.eqb c "'" || Ascii.eqb c dquote
  || Ascii.eqb c "_" || Ascii.eqb c "%".

Definition allowed_pattern : pattern := [Bol; Rep is_allowed 1 None; Eol].

Definition designation_patterns : list pattern :=
  [ (* ^[A-Z]-\d+ *)
    [Bol; Chr is_upper; Chr (Ascii.eqb "-"); Rep is_digit 1 None];
    (* ^[A-Z]\d+[A-Z]? *)
    [Bol; Chr is_upper; Rep is_digit 1 None; Rep is_upper 0 (Some 1)];
    (* ^[A-Z]{2,3}-\d+ *)
    [Bol; Rep is_upper 2 (Some 3); Chr (Ascii.eqb "-"); Rep is_digit 1 None];
    (* ^\w+\s+Mk\s+\w+ *)
    [Bol; Rep is_word 1 None; Rep is_space 1 None;
     Chr (Ascii.eqb "M"); Chr (Ascii.eqb "k");
     Rep is_space 1 None; Rep is_word 1 None];
    (* ^[A-Z][a-z]\s+\d+ *)
    [Bol; Chr is_upper; Chr is_lower; Rep is_space 1 None; Rep is_digit 1 None] ].

(** The three signals computed at the end of [is_aircraft_name]. *)
Definition has_alphanum (name : str) : bool :=
  truthy (re_search letter_pattern name)
  && truthy (re_search digit_or_hyphen_pattern name).

Definition has_aircraft_name (name : str) : bool :=
  any (fun aircraft_name => contains aircraft_name (lower name)) aircraft_names.

Definition has_designation (name : str) : bool :=
  any (fun pattern => truthy (re_match pattern name)) designation_patterns.

(** [is_aircraft_name]; the result is the truth value of what the source
    returns (a match object counts as true). *)
Definition is_aircraft_name (name : str) : bool :=
  if match name with [] => true | _ => false end || (length name <? 2)
  then false
  else if in_list (lower name) skip_terms
          || any (fun term => contains term (lower name)) skip_terms
  then false
  else if negb (truthy (re_search letter_pattern name))
  then false
  else if negb (truthy (re_match allowed_pattern name))
  then false
  else has_alphanum name || has_aircraft_name name || has_designation name.

(** The two tests of the first loop that end in [continue]. *)
Definition href_skipped (href : str) : bool :=
  any (fun skip => contains skip (lower href)) href_skips.

Definition title_skipped (title : str) : bool :=
  any (fun skip => contains skip (lower title)) title_skips.

(** A pair is dropped by the exclusion filter when either test fires. *)
Definition excluded (href title : str) : bool :=
  href_skipped href || title_skipped title.

(** Body of [for href, title in matches], on the list [aircraft] built so
    far.  The pattern has two groups, so every match is a pair; the last
    branch is never taken on the result of [findall]. *)
Definition collect (base_url : str) (acc : list aircraft) (m : list str)
    : list aircraft :=
  match m with
  | [href; title] =>
      if href_skipped href then acc
      else if title_skipped title then acc
      else if is_aircraft_name title
           then acc ++ [(title, base_url ++ href)]
           else acc
  | _ => acc
  end.

(** Body of [for name, url in aircraft], on [(seen_urls, unique_aircraft)]. *)
Definition dedup_step (hash : str -> N) (st : pyset * list aircraft)
    (a : aircraft) : pyset * list aircraft :=
  let '(seen_urls, unique_aircraft) := st in
  let '(name, url) := a in
  if negb (set_contains url seen_urls)
  then (set_add hash url seen_urls, unique_aircraft ++ [(name, url)])
  else (seen_urls, unique_aircraft).

Definition remove_duplicates (hash : str -> N) (l : list aircraft)
    : list aircraft :=
  snd (fold_left (dedup_step hash) l (set_empty, [])).

(** [matches = re.findall(link_pattern, html_content)] *)
Definition matches (html_content : str) : list (list str) :=
  findall link_pattern html_content.

(** The list [aircraft] after the first loop. *)
Definition candidates (html_content base_url : str) : list aircraft :=
  fold_left (collect base_url) (matches html_content) [].

Definition extract_aircraft_from_html_content (hash : str -> N)
    (html_content base_url : str) : list aircraft :=
  remove_duplicates hash (candidates html_content base_url).

(** [sorted(aircraft, key=lambda x: x[0].lower())] *)
Definition name_key (a : aircraft) : str := lower (fst a).

Definition sorted_aircraft (l : list aircraft) : list aircraft :=
  sorted name_key l.

(** One line of the output file. *)
Definition line (a : aircraft) : str := fst a ++ lit "|" ++ snd a ++ [newline].

(** [save_aircraft_to_file]: the path and the text written, or [None] when
    the list is empty and no file is written.  The directory creation and
    the console messages are left out. *)
Definition save_aircraft_to_file (filename : str) (l : list aircraft)
    : option (str * str) :=
  match l with
  | [] => None
  | _ :: _ =>
      Some (path_join (lit "data/pages") filename,
            concat (map line (sorted_aircraft l)))
  end.

(** One nation of [main]: extraction with the default base address, then
    the save. *)
Definition process (hash : str -> N) (filename html_content : str)
    : option (str * str) :=
  save_aircraft_to_file filename
    (extract_aircraft_from_html_content hash html_content default_base_url).

End Crawler.

(* ================================================================== *)
(** ** Vocabulary of the properties *)

Module Spec.
Import Py Re Crawler.

(** [t] occurs in [s]. *)
Definition Substring (t s : str) : Prop := exists pre post, s = pre ++ t ++ post.

Definition Letter (c : ascii) : Prop :=
  (65 <= ord c <= 90)%N \/ (97 <= ord c <= 122)%N.

Definition Digit (c : ascii) : Prop := (48 <= ord c <= 57)%N.

Definition Whitespace (c : ascii) : Prop :=
  (9 <= ord c <= 13)%N \/ (28 <= ord c <= 32)%N
  \/ ord c = 133%N \/ ord c = 160%N.

(** Letters, digits, white space and [- . ( ) / ' _ %] and the double quote. *)
Definition Allowed (c : ascii) : Prop :=
  Letter c \/ Digit c \/ Whitespace c \/ In c (lit "-.()/'_%") \/ c = dquote.

Definition NoQuote (w : str) : Prop := ~ In dquote w.

Definition MatchesFromStart (pat : pattern) (s : str) : Prop :=
  exists rest, Matches pat true s rest.

(** [pat] cannot match a text that starts with a character of class [p]. *)
Definition Rejects (p : ascii -> bool) (pat : pattern) : Prop :=
  forall c s bos g caps, p c = true -> run pat bos (c :: s) g caps = None.

(** The text of one link: the href attribute, the separator [ws], the title
    attribute. *)
Definition link_text (href ws title : str) : str :=
  lit "href=" ++ [dquote] ++ href ++ [dquote] ++ ws
  ++ lit "title=" ++ [dquote] ++ title ++ [dquote].

(** [w] is a link occurrence with path [href] and text [title]: the path
    starts with a slash and has at least one more character, neither part
    holds a double quote, and the separator is one or more white space
    characters. *)
Definition Occurrence (href title w : str) : Prop :=
  exists p ws,
    href = "/"%char :: p /\ p <> [] /\ NoQuote p /\
    ws <> [] /\ Forall Whitespace ws /\
    title <> [] /\ NoQuote title /\
    w = link_text href ws title.

(** No link occurrence starts at the very beginning of [s]. *)
Definition NoneAtStart (s : str) : Prop :=
  forall href title w post, Occurrence href title w -> s <> w ++ post.

(** Left-to-right scan for occurrences that do not overlap: the leftmost
    occurrence first, then the scan of what follows it. *)
Inductive Scan : str -> list (list str) -> Prop :=
| Scan_none : forall doc,
    (forall pre href title w post,
        Occurrence href title w -> doc <> pre ++ w ++ post) ->
    Scan doc []
| Scan_hit : forall pre href title w post l,
    Occurrence href title w ->
    (forall pre' post', pre = pre' ++ post' -> post' <> [] ->
                        NoneAtStart (post' ++ w ++ post)) ->
    Scan post l ->
    Scan (pre ++ w ++ post) ([href; title] :: l).

(** Claim C3 read literally: every substring of the link shape, with at
    most one white space character between the attributes, gives a pair. *)
Definition every_shaped_substring_is_extracted : Prop :=
  forall doc pre p ws text post,
    p <> [] -> NoQuote p -> text <> [] -> NoQuote text ->
    length ws <= 1 -> Forall Whitespace ws ->
    doc = pre ++ link_text ("/"%char :: p) ws text ++ post ->
    In ["/"%char :: p; text] (matches doc).

(** [l1] is [l2] with some elements left out, the order kept. *)
Inductive Subseq {A : Type} : list A -> list A -> Prop :=
| Subseq_nil : Subseq [] []
| Subseq_drop : forall x l1 l2, Subseq l1 l2 -> Subseq l1 (x :: l2)
| Subseq_keep : forall x l1 l2, Subseq l1 l2 -> Subseq (x :: l1) (x :: l2).

Definition has_url (u : str) (a : aircraft) : bool := eqb_str (snd a) u.

(** The first pair of [l] with url [u]. *)
Definition first_with_url (u : str) (l : list aircraft) : option aircraft :=
  find (has_url u) l.

(** The href or the title holds a denylisted fragment. *)
Definition Denylisted (href title : str) : Prop :=
  (exists marker, In marker href_skips /\ Substring marker (lower href))
  \/ (exists phrase, In phrase title_skips /\ Substring phrase (lower title)).

(** The order of a sort by [key], and the order of the catalog: names
    compared after lower-casing. *)
Definition key_le {A : Type} (key : A -> str) (a b : A) : Prop :=
  str_leb (key a) (key b) = true.

Definition name_le (a b : aircraft) : Prop :=
  str_leb (lower (fst a)) (lower (fst b)) = true.

Definition same_name_as (k : str) (a : aircraft) : bool :=
  eqb_str (lower (fst a)) k.

(** The pairs of [l] whose url is neither in [seen] nor carried by an
    earlier pair of [l]. *)
Fixpoint first_occurrences (seen : list str) (l : list aircraft)
    : list aircraft :=
  match l with
  | [] => []
  | a :: l' =>
      if in_list (snd a) seen then first_occurrences seen l'
      else a :: first_occurrences (snd a :: seen) l'
  end.

(** The two links of the end-to-end scenario, one per line. *)
Definition scenario_doc : str :=
  link_text (lit "/P-51") (lit " ") (lit "P-51") ++ [newline]
  ++ link_text (lit "/Category:USA") (lit " ") (lit "Category") ++ [newline].

(** Line 183 of the source as the interpreter reads it: the two escaped
    quotes of the literal are plain double quotes in the document. *)
Definition mariner_doc : str :=
  lit "href=" ++ [dquote] ++ lit "/PBM-1_%22Mariner%22" ++ [dquote]
  ++ lit " title=" ++ [dquote] ++ lit "PBM-1 " ++ [dquote] ++ lit "Mariner"
  ++ [dquote] ++ [dquote] ++ [newline].

(** The same link in a document that keeps the backslashes. *)
Definition backslash : ascii := ascii_of_N 92.

Definition mariner_doc_escaped : str :=
  lit "href=" ++ [dquote] ++ lit "/PBM-1_%22Mariner%22" ++ [dquote]
  ++ lit " title=" ++ [dquote] ++ lit "PBM-1 " ++ [backslash; dquote]
  ++ lit "Mariner" ++ [backslash; dquote] ++ [dquote] ++ [newline].

(** The title the link is meant to carry. *)
Definition mariner_title : str :=
  lit "PBM-1 " ++ [dquote] ++ lit "Mariner" ++ [dquote].

(** Two attributes with nothing between them. *)
Definition glued_doc : str := link_text (lit "/a") [] (lit "b").

End Spec.

(* ================================================================== *)
(** ** The checks of [main] *)

Module Main.
Import Py Re Crawler.

(** The file name of a nation: [aircraft_pages_] followed by the
    lower-cased nation and [.txt]. *)
Definition nation_filename (nation : str) : str :=
  lit "aircraft_pages_" ++ lower nation ++ lit ".txt".

(** [any(wanted == name for name, url in l)], the test made for [F-8E]. *)
Definition name_found (wanted : str) (l : list aircraft) : bool :=
  any (fun a => eqb_str wanted (fst a)) l.

(** [next((name, url) for name, url in l if wanted == name)]; [None] stands
    for the [StopIteration] raised when no pair has the name. *)
Definition first_named (wanted : str) (l : list aircraft) : option aircraft :=
  find (fun a => eqb_str wanted (fst a)) l.

(** The body of the loop over [nations_data], on the files written so far
    and [total_aircraft]. *)
Definition save_nation (st : list (str * str) * nat)
    (entry : str * list aircraft) : list (str * str) * nat :=
  let '(files, total_aircraft) := st in
  let '(nation, l) := entry in
  (match save_aircraft_to_file (nation_filename nation) l with
   | Some f => files ++ [f]
   | None => files
   end,
   total_aircraft + length l).

Definition save_all (nations_data : list (str * list aircraft))
    : list (str * str) * nat :=
  fold_left save_nation nations_data ([], 0).

End Main.

(* ================================================================== *)
(** ** Vocabulary of the further properties *)

Module SpecMore.
Import Py Re Crawler Spec.

(** A match that the first loop turns into an aircraft. *)
Definition admissible (m : list str) : bool :=
  match m with
  | [href; title] => negb (excluded href title) && is_aircraft_name title
  | _ => false
  end.

Definition to_aircraft (base_url : str) (m : list str) : aircraft :=
  match m with
  | [href; title] => (title, base_url ++ href)
  | _ => ([], [])
  end.


(** The separator of a line of the output file. *)
Definition bar : ascii := "|"%char.

End SpecMore.

(* ================================================================== *)
(** ** Facts about strings *)

Module PyFacts.
Import Py Spec.

Lemma eqb_str_eq (a b : str) : eqb_str a b = true <-> a = b.
Proof.
  revert b; induction a as [|x a IH]; intros [|y b]; simpl;
    try (split; [discriminate | discriminate]); try tauto.
  rewrite andb_true_iff, Ascii.eqb_eq, IH.
  split; [intros [-> ->]; reflexivity | intros H; inversion H; auto].
Qed.

Lemma eqb_str_refl (a : str) : eqb_str a a = true.
Proof. apply eqb_str_eq; reflexivity. Qed.

Lemma eqb_str_neq (a b : str) : eqb_str a b = false <-> a <> b.
Proof.
  rewrite <- eqb_str_eq. destruct (eqb_str a b); split; congruence.
Qed.

Lemma starts_with_iff (p s : str) :
  starts_with p s = true <-> exists rest, s = p ++ rest.
Proof.
  revert s; induction p as [|x p IH]; intros s; simpl.
  - split; [intros _; exists s; reflexivity | reflexivity].
  - destruct s as [|y s].
    + split; [discriminate | intros [rest H]; discriminate].
    + rewrite andb_true_iff, Ascii.eqb_eq, IH. split.
      * intros [-> [rest ->]]. exists rest; reflexivity.
      * intros [rest H]. inversion H; subst. split; [reflexivity | eauto].
Qed.

Lemma contains_iff (needle hay : str) :
  contains needle hay = true <-> Substring needle hay.
Proof.
  unfold Substring. induction hay as [|c hay IH]; simpl.
  - rewrite orb_false_r, starts_with_iff. split.
    + intros [rest H]. exists [], rest. exact H.
    + intros [pre [post H]]. destruct pre; [eauto | discriminate].
  - rewrite orb_true_iff, starts_with_iff, IH. split.
    + intros [[rest H] | [pre [post H]]].
      * exists [], rest. exact H.
      * exists (c :: pre), post. simpl. rewrite H. reflexivity.
    + intros [[|d pre] [post H]].
      * left. exists post. exact H.
      * right. inversion H; subst. exists pre, post. reflexivity.
Qed.

Lemma in_list_iff (x : str) (l : list str) : in_list x l = true <-> In x l.
Proof.
  unfold in_list. rewrite existsb_exists. split.
  - intros [y [Hy E]]. apply eqb_str_eq in E. subst. exact Hy.
  - intros H. exists x. split; [exact H | apply eqb_str_refl].
Qed.

Lemma any_contains_iff (terms : list str) (s : str) :
  any (fun t => contains t s) terms = true <->
  exists t, In t terms /\ Substring t s.
Proof.
  unfold any. rewrite existsb_exists.
  split; intros [t [H1 H2]]; exists t; split; auto; apply contains_iff; auto.
Qed.

Lemma between_iff (lo hi : N) (c : ascii) :
  between lo hi c = true <-> (lo <= ord c <= hi)%N.
Proof.
  unfold between. rewrite andb_true_iff, !N.leb_le. tauto.
Qed.

Lemma is_upper_iff c : is_upper c = true <-> (65 <= ord c <= 90)%N.
Proof. apply between_iff. Qed.

Lemma is_lower_iff c : is_lower c = true <-> (97 <= ord c <= 122)%N.
Proof. apply between_iff. Qed.

Lemma is_alpha_iff c : is_alpha c = true <-> Letter c.
Proof.
  unfold is_alpha, Letter.
  rewrite orb_true_iff, is_upper_iff, is_lower_iff. tauto.
Qed.

Lemma is_digit_iff c : is_digit c = true <-> Digit c.
Proof. apply between_iff. Qed.

Lemma is_space_iff c : is_space c = true <-> Whitespace c.
Proof.
  unfold is_space, Whitespace.
  rewrite !orb_true_iff, !between_iff, !N.eqb_eq. tauto.
Qed.

Lemma ord_inj (a b : ascii) : ord a = ord b -> a = b.
Proof.
  unfold ord. intros H.
  rewrite <- (ascii_N_embedding a), <- (ascii_N_embedding b), H. reflexivity.
Qed.

Lemma str_leb_refl (a : str) : str_leb a a = true.
Proof.
  induction a as [|x a IH]; simpl; [reflexivity|].
  rewrite N.ltb_irrefl. exact IH.
Qed.

Lemma str_leb_total (a b : str) : str_leb a b = true \/ str_leb b a = true.
Proof.
  revert b; induction a as [|x a IH]; intros [|y b]; simpl; auto.
  destruct (N.ltb_spec (ord x) (ord y)); auto.
  destruct (N.ltb_spec (ord y) (ord x)); auto.
Qed.

Lemma str_leb_trans (a b c : str) :
  str_leb a b = true -> str_leb b c = true -> str_leb a c = true.
Proof.
  revert b c; induction a as [|x a IH]; intros [|y b] [|z c]; simpl; auto;
    try discriminate.
  destruct (N.ltb_spec (ord x) (ord y)); destruct (N.ltb_spec (ord y) (ord z));
    destruct (N.ltb_spec (ord x) (ord z)); auto; try lia;
    destruct (N.ltb_spec (ord y) (ord x)); destruct (N.ltb_spec (ord z) (ord y));
    destruct (N.ltb_spec (ord z) (ord x)); try discriminate; try lia; eauto.
Qed.

Lemma str_leb_antisym (a b : str) :
  str_leb a b = true -> str_leb b a = true -> a = b.
Proof.
  revert b; induction a as [|x a IH]; intros [|y b]; simpl; auto;
    try discriminate.
  destruct (N.ltb_spec (ord x) (ord y)); destruct (N.ltb_spec (ord y) (ord x));
    try discriminate; try lia.
  intros H1 H2. f_equal; [apply ord_inj; lia | auto].
Qed.

End PyFacts.

(* ================================================================== *)
(** ** Facts about the matcher *)

Module ReFacts.
Import Py Re Spec.

Lemma tries_some {A : Type} (f : nat -> option A) (n lo : nat) (r : A) :
  tries f n lo = Some r -> exists k, lo <= k <= n /\ f k = Some r.
Proof.
  induction n as [|n IH]; simpl.
  - destruct lo; simpl; [|discriminate].
    destruct (f 0) eqn:E; [|discriminate].
    intros H; inversion H; subst. exists 0. split; [lia | exact E].
  - destruct (Nat.ltb_spec (S n) lo) as [Hlt|Hge]; [discriminate|].
    destruct (f (S n)) eqn:E.
    + intros H; inversion H; subst. exists (S n). split; [lia | exact E].
    + intros H. destruct (IH H) as [k [Hk Hf]]. exists k. split; [lia | exact Hf].
Qed.

Lemma tries_complete {A : Type} (f : nat -> option A) (n lo k : nat) :
  lo <= k <= n -> f k <> None -> tries f n lo <> None.
Proof.
  induction n as [|n IH]; intros Hk Hf; simpl.
  - assert (k = 0) by lia. assert (lo = 0) by lia. subst. simpl.
    destruct (f 0); congruence.
  - destruct (Nat.ltb_spec (S n) lo) as [Hlt|Hge]; [lia|].
    destruct (f (S n)) eqn:E; [discriminate|].
    apply IH; [|exact Hf].
    assert (k <> S n) by (intros ->; congruence). lia.
Qed.

(** When every shorter choice fails, the greedy choice decides. *)
Lemma tries_top {A : Type} (f : nat -> option A) (n lo : nat) :
  (forall k, k < n -> f k = None) ->
  tries f n lo = if n <? lo then None else f n.
Proof.
  intros Hf. destruct n as [|n]; simpl.
  - destruct (0 <? lo); [reflexivity|]. destruct (f 0); reflexivity.
  - destruct (Nat.ltb_spec (S n) lo) as [Hlt|Hge]; [reflexivity|].
    destruct (f (S n)) eqn:E; [reflexivity|].
    destruct (tries f n lo) eqn:T; [|reflexivity].
    apply tries_some in T. destruct T as [k [Hk Hk']].
    rewrite Hf in Hk' by lia. discriminate.
Qed.

Lemma span_len_prefix (p : ascii -> bool) (hi : option nat) (s : str) (k : nat) :
  k <= span_len p hi s ->
  Forall (fun c => p c = true) (firstn k s) /\ k <= length s /\
  (forall h, hi = Some h -> k <= h).
Proof.
  revert hi s; induction k as [|k IH]; intros hi s Hk.
  - simpl. split; [constructor|]. split; [lia|]. intros; lia.
  - assert (Hs : exists c s', s = c :: s' /\ p c = true /\
                   hi <> Some 0 /\ k <= span_len p (option_map pred hi) s').
    { destruct hi as [[|h]|]; destruct s as [|c s']; simpl in Hk; try lia;
        destruct (p c) eqn:E; try lia;
        exists c, s'; simpl; repeat split; auto; try discriminate; lia. }
    destruct Hs as [c [s' [-> [Hc [Hhi Hk']]]]].
    destruct (IH _ _ Hk') as [H1 [H2 H3]].
    simpl. repeat split.
    + constructor; assumption.
    + lia.
    + intros h ->. destruct h as [|h]; [congruence|].
      specialize (H3 h eq_refl). lia.
Qed.

Lemma span_len_longest (p : ascii -> bool) (hi : option nat) (w s : str) :
  Forall (fun c => p c = true) w ->
  (forall h, hi = Some h -> length w <= h) ->
  length w <= span_len p hi (w ++ s).
Proof.
  revert hi; induction w as [|c w IH]; intros hi Hw Hhi; simpl length.
  - lia.
  - inversion Hw; subst.
    assert (Hrec : length w <= span_len p (option_map pred hi) (w ++ s)).
    { apply IH; [assumption|]. intros h Hh. destruct hi as [h'|]; [|discriminate].
      simpl in Hh. inversion Hh; subst. specialize (Hhi h' eq_refl).
      simpl in Hhi. lia. }
    destruct hi as [[|h]|]; simpl.
    + specialize (Hhi 0 eq_refl). simpl in Hhi. lia.
    + rewrite H1. simpl in Hrec. lia.
    + rewrite H1. simpl in Hrec. lia.
Qed.

(** On an unbounded class the span stops at the first character outside it. *)
Lemma span_len_stop (p : ascii -> bool) (w s : str) :
  Forall (fun c => p c = true) w ->
  (match s with [] => True | c :: _ => p c = false end) ->
  span_len p None (w ++ s) = length w.
Proof.
  intros Hw Hs. induction Hw as [|c w Hc Hw IH]; simpl.
  - destruct s as [|c s]; simpl in *; [reflexivity | rewrite Hs; reflexivity].
  - rewrite Hc, IH. reflexivity.
Qed.

Lemma span_len_next (p : ascii -> bool) (s : str) (k : nat) :
  k < span_len p None s ->
  exists c s', skipn k s = c :: s' /\ p c = true.
Proof.
  revert s; induction k as [|k IH]; intros [|c s] Hk; simpl in *; try lia.
  - destruct (p c) eqn:E; [eauto | lia].
  - destruct (p c) eqn:E; [apply IH; lia | lia].
Qed.

Lemma run_suffix (pat : pattern) :
  forall bos s g caps caps' rest,
    run pat bos s g caps = Some (caps', rest) -> exists w, s = w ++ rest.
Proof.
  induction pat as [|a pat IH]; intros bos s g caps caps' rest H; simpl in H.
  - inversion H; subst. exists []. reflexivity.
  - destruct a as [p|p lo hi| | | |].
    + destruct s as [|c s]; [discriminate|]. destruct (p c); [|discriminate].
      destruct (IH _ _ _ _ _ _ H) as [w ->]. exists (c :: w). reflexivity.
    + apply tries_some in H. destruct H as [k [_ H]].
      destruct (IH _ _ _ _ _ _ H) as [w Hw].
      exists (firstn k s ++ w). rewrite <- app_assoc, <- Hw.
      symmetry. apply firstn_skipn.
    + destruct bos; [eauto | discriminate].
    + destruct s as [|c [|d s]]; [eauto | | discriminate].
      destruct (Ascii.eqb c newline); [eauto | discriminate].
    + eauto.
    + eauto.
Qed.

Lemma run_sound (pat : pattern) :
  forall bos s g caps caps' rest,
    run pat bos s g caps = Some (caps', rest) -> Matches pat bos s rest.
Proof.
  induction pat as [|a pat IH]; intros bos s g caps caps' rest H; simpl in H.
  - inversion H; subst. constructor.
  - destruct a as [p|p lo hi| | | |].
    + destruct s as [|c s]; [discriminate|]. destruct (p c) eqn:E; [|discriminate].
      constructor; eauto.
    + apply tries_some in H. destruct H as [k [[Hlo Hhi] H]].
      apply span_len_prefix in Hhi. destruct Hhi as [Hall [Hlen Hcap]].
      rewrite <- (firstn_skipn k s).
      assert (Hk : length (firstn k s) = k) by (apply firstn_length_le; exact Hlen).
      apply M_rep; try rewrite Hk; eauto.
    + destruct bos; [|discriminate]. constructor; eauto.
    + destruct s as [|c [|d s]]; [constructor; eauto | | discriminate].
      destruct (Ascii.eqb c newline) eqn:E; [|discriminate].
      apply Ascii.eqb_eq in E. subst. constructor; eauto.
    + constructor; eauto.
    + constructor; eauto.
Qed.

Lemma run_complete (pat : pattern) (bos : bool) (s rest : str) :
  Matches pat bos s rest -> forall g caps, run pat bos s g caps <> None.
Proof.
  induction 1 as [bos s | p pat bos c s rest Hc _ IH
                 | p lo hi pat bos w s rest Hw Hlo Hhi _ IH
                 | pat s rest _ IH | pat bos s rest Hs _ IH
                 | pat bos s rest _ IH | pat bos s rest _ IH];
    intros g caps; simpl.
  - discriminate.
  - rewrite Hc. apply IH.
  - apply (tries_complete _ _ _ (length w)).
    + split; [exact Hlo | apply span_len_longest; assumption].
    + rewrite skipn_app, skipn_all, Nat.sub_diag. simpl. apply IH.
  - apply IH.
  - destruct Hs as [-> | ->]; [apply IH|].
    rewrite Ascii.eqb_refl. apply IH.
  - apply IH.
  - apply IH.
Qed.

Lemma truthy_true {A : Type} (m : option A) : truthy m = true <-> m <> None.
Proof. destruct m; simpl; split; congruence. Qed.

(** [re.match] succeeds exactly when the pattern matches from the start. *)
Lemma re_match_iff (pat : pattern) (s : str) :
  truthy (re_match pat s) = true <-> MatchesFromStart pat s.
Proof.
  unfold re_match, MatchesFromStart. rewrite truthy_true. split.
  - destruct (run pat true s None []) as [[caps rest]|] eqn:E; [|congruence].
    intros _. exists rest. eapply run_sound; eauto.
  - intros [rest H]. eapply run_complete; eauto.
Qed.

(** [re.search] for a one-character class finds a character of the class. *)
Lemma search_from_chr (p : ascii -> bool) (s : str) (bos : bool) :
  truthy (search_from [Chr p] bos s) = existsb p s.
Proof.
  revert bos; induction s as [|c s IH]; intros bos; simpl; [reflexivity|].
  destruct (p c); simpl; [reflexivity | apply IH].
Qed.

Lemma re_search_chr (p : ascii -> bool) (s : str) :
  truthy (re_search [Chr p] s) = existsb p s.
Proof. apply search_from_chr. Qed.

End ReFacts.

(* ================================================================== *)
(** ** The link pattern *)

Module LinkFacts.
Import Py Re Crawler Spec PyFacts ReFacts.

Local Arguments run : simpl never.

Lemma run_nil bos s g caps : run [] bos s g caps = Some (caps, s).
Proof. reflexivity. Qed.

Lemma run_open pat bos s g caps :
  run (GOpen :: pat) bos s g caps = run pat bos s (Some []) caps.
Proof. reflexivity. Qed.

Lemma run_close pat bos s g caps :
  run (GClose :: pat) bos s g caps = run pat bos s None (caps ++ [group_text g]).
Proof. reflexivity. Qed.

Lemma run_chr_iff q pat bos s g caps r :
  run (Chr q :: pat) bos s g caps = Some r <->
  exists c s', s = c :: s' /\ q c = true /\
               run pat false s' (grow g [c]) caps = Some r.
Proof.
  unfold run; fold run. split.
  - destruct s as [|c s]; [discriminate|].
    destruct (q c) eqn:E; [|discriminate]. intros H. exists c, s. auto.
  - intros [c [s' [-> [Hc H]]]]. rewrite Hc. exact H.
Qed.

Lemma grow_grow g u v : grow (grow g u) v = grow g (u ++ v).
Proof. destruct g; simpl; [rewrite app_assoc|]; reflexivity. Qed.

(** A literal text in front of a pattern. *)
Lemma run_text_iff (l : str) pat bos s g caps r :
  l <> [] ->
  run (map (fun c => Chr (Ascii.eqb c)) l ++ pat) bos s g caps = Some r <->
  exists s', s = l ++ s' /\ run pat false s' (grow g l) caps = Some r.
Proof.
  revert bos s g; induction l as [|x l IH]; intros bos s g Hl; [congruence|].
  simpl map. simpl app. rewrite run_chr_iff.
  destruct l as [|y l].
  - simpl. split.
    + intros [c [s' [-> [Hc H]]]]. apply Ascii.eqb_eq in Hc. subst. eauto.
    + intros [s' [-> H]]. exists x, s'. rewrite Ascii.eqb_refl. auto.
  - split.
    + intros [c [s' [-> [Hc H]]]]. apply Ascii.eqb_eq in Hc. subst c.
      apply IH in H; [|discriminate]. destruct H as [s'' [-> H]].
      rewrite grow_grow in H. exists s''. auto.
    + intros [s' [-> H]]. exists x, ((y :: l) ++ s').
      rewrite Ascii.eqb_refl. repeat split.
      apply IH; [discriminate|]. exists s'. rewrite grow_grow. auto.
Qed.

Lemma rejects_chr p q pat :
  (forall c, p c = true -> q c = false) -> Rejects p (Chr q :: pat).
Proof.
  intros H c s bos g caps Hc. unfold run; fold run. rewrite (H c Hc). reflexivity.
Qed.

Lemma rejects_close p pat : Rejects p pat -> Rejects p (GClose :: pat).
Proof. intros H c s bos g caps Hc. rewrite run_close. apply H. exact Hc. Qed.

(** A greedy [p+] in front of a pattern that rejects [p] takes the whole
    run of [p]. *)
Lemma run_plus_iff p pat bos s g caps r :
  Rejects p pat ->
  run (Rep p 1 None :: pat) bos s g caps = Some r <->
  exists w s', s = w ++ s' /\ w <> [] /\ Forall (fun c => p c = true) w /\
               run pat false s' (grow g w) caps = Some r.
Proof.
  intros Hrej.
  assert (Htop : run (Rep p 1 None :: pat) bos s g caps =
                 if span_len p None s <? 1 then None
                 else run pat (bos && (span_len p None s =? 0))
                          (skipn (span_len p None s) s)
                          (grow g (firstn (span_len p None s) s)) caps).
  { unfold run; fold run.
    apply (tries_top (fun k => run pat (bos && (k =? 0)) (skipn k s)
                                   (grow g (firstn k s)) caps)).
    intros k Hk.
    destruct (span_len_next _ _ _ Hk) as [c [s' [-> Hc]]]. apply Hrej. exact Hc. }
  rewrite Htop. clear Htop. split.
  - destruct (Nat.ltb_spec (span_len p None s) 1) as [Hlt|Hge]; [discriminate|].
    destruct (span_len_prefix p None s _ (le_n _)) as [Hall [Hlen _]].
    replace (span_len p None s =? 0) with false
      by (symmetry; apply Nat.eqb_neq; lia).
    rewrite andb_false_r. intros H.
    exists (firstn (span_len p None s) s), (skipn (span_len p None s) s).
    repeat split; auto.
    + symmetry. apply firstn_skipn.
    + intros E. apply (f_equal (@length ascii)) in E.
      rewrite firstn_length_le in E by exact Hlen. simpl in E. lia.
  - intros [w [s' [-> [Hne [Hall H]]]]].
    assert (Hstop : span_len p None (w ++ s') = length w).
    { apply span_len_stop; [exact Hall|]. destruct s' as [|c s']; [exact I|].
      destruct (p c) eqn:E; [|reflexivity].
      rewrite (Hrej c s' false (grow g w) caps E) in H. discriminate. }
    rewrite Hstop.
    assert (Hpos : 1 <= length w) by (destruct w; [congruence | simpl; lia]).
    destruct (Nat.ltb_spec (length w) 1) as [Hlt|Hge]; [lia|].
    replace (length w =? 0) with false by (symmetry; apply Nat.eqb_neq; lia).
    rewrite andb_false_r, skipn_app, skipn_all, Nat.sub_diag.
    rewrite firstn_app, firstn_all, Nat.sub_diag. simpl.
    rewrite app_nil_r. exact H.
Qed.

Lemma is_quote_iff c : is_quote c = true <-> c = dquote.
Proof. unfold is_quote. rewrite Ascii.eqb_eq. split; congruence. Qed.

Lemma not_quote_iff c : not_quote c = true <-> c <> dquote.
Proof.
  unfold not_quote. rewrite negb_true_iff, Ascii.eqb_neq. split; congruence.
Qed.

Lemma NoQuote_Forall (w : str) :
  NoQuote w <-> Forall (fun c => not_quote c = true) w.
Proof.
  unfold NoQuote. rewrite Forall_forall. split.
  - intros H c Hc. apply not_quote_iff. intros ->. auto.
  - intros H Hin. specialize (H _ Hin). apply not_quote_iff in H. congruence.
Qed.

Lemma Whitespace_Forall (w : str) :
  Forall Whitespace w <-> Forall (fun c => is_space c = true) w.
Proof.
  rewrite !Forall_forall.
  split; intros H c Hc; apply is_space_iff; auto.
Qed.

Lemma not_quote_rejected_by_quote pat :
  Rejects not_quote (GClose :: Chr is_quote :: pat).
Proof.
  apply rejects_close, rejects_chr. intros c Hc.
  apply not_quote_iff in Hc. destruct (is_quote c) eqn:E; [|reflexivity].
  apply is_quote_iff in E. congruence.
Qed.

Lemma space_rejected_by_title pat :
  Rejects is_space (map (fun c => Chr (Ascii.eqb c)) (lit "title=") ++ pat).
Proof.
  apply rejects_chr. intros c Hc.
  destruct (Ascii.eqb "t" c) eqn:E; [|reflexivity].
  apply Ascii.eqb_eq in E. subst c. discriminate Hc.
Qed.

(** The link pattern matches at a position exactly when a link occurrence
    starts there; the groups are its path and its text. *)
Lemma link_match_iff bos s caps rest :
  run link_pattern bos s None [] = Some (caps, rest) <->
  exists href title w,
    Occurrence href title w /\ s = w ++ rest /\ caps = [href; title].
Proof.
  unfold link_pattern, lits. split.
  - intros H.
    apply run_text_iff in H; [|discriminate]. destruct H as [s1 [-> H]].
    cbn [app] in H.
    apply run_chr_iff in H. destruct H as [c1 [s2 [-> [Hc1 H]]]].
    apply is_quote_iff in Hc1. subst c1. rewrite run_open in H.
    apply run_chr_iff in H. destruct H as [c2 [s3 [-> [Hc2 H]]]].
    apply Ascii.eqb_eq in Hc2. subst c2.
    apply run_plus_iff in H; [|apply not_quote_rejected_by_quote].
    destruct H as [p [s4 [-> [Hp [Hpq H]]]]].
    rewrite run_close in H.
    apply run_chr_iff in H. destruct H as [c3 [s5 [-> [Hc3 H]]]].
    apply is_quote_iff in Hc3. subst c3.
    apply run_plus_iff in H; [|apply space_rejected_by_title].
    destruct H as [ws [s6 [-> [Hws [Hwss H]]]]].
    apply run_text_iff in H; [|discriminate]. destruct H as [s7 [-> H]].
    apply run_chr_iff in H. destruct H as [c4 [s8 [-> [Hc4 H]]]].
    apply is_quote_iff in Hc4. subst c4. rewrite run_open in H.
    apply run_plus_iff in H; [|apply not_quote_rejected_by_quote].
    destruct H as [t [s9 [-> [Ht [Htq H]]]]].
    rewrite run_close in H.
    apply run_chr_iff in H. destruct H as [c5 [s10 [-> [Hc5 H]]]].
    apply is_quote_iff in Hc5. subst c5.
    rewrite run_nil in H. inversion H; subst.
    exists ("/"%char :: p), t, (link_text ("/"%char :: p) ws t).
    split; [|split].
    + exists p, ws. repeat split; auto.
      * apply NoQuote_Forall; exact Hpq.
      * apply Whitespace_Forall; exact Hwss.
      * apply NoQuote_Forall; exact Htq.
    + unfold link_text. simpl. repeat (rewrite <- app_assoc; simpl).
      reflexivity.
    + reflexivity.
  - intros [href [title [w [[p [ws [-> [Hp [Hpq [Hws [Hwss [Ht [Htq ->]]]]]]]]]
                            [-> ->]]]]].
    apply NoQuote_Forall in Hpq, Htq. apply Whitespace_Forall in Hwss.
    replace (link_text ("/"%char :: p) ws title ++ rest)
      with (lit "href=" ++ dquote :: "/"%char :: p ++ dquote
              :: ws ++ lit "title=" ++ dquote :: title ++ dquote :: rest)
      by (unfold link_text; simpl; repeat (rewrite <- app_assoc; simpl);
          reflexivity).
    apply run_text_iff; [discriminate|]. eexists; split; [reflexivity|].
    cbn [app]. apply run_chr_iff. eexists _, _.
    split; [reflexivity|]. split; [apply is_quote_iff; reflexivity|].
    rewrite run_open. apply run_chr_iff. eexists _, _.
    split; [reflexivity|]. split; [apply Ascii.eqb_refl|].
    apply run_plus_iff; [apply not_quote_rejected_by_quote|].
    exists p. eexists. split; [reflexivity|]. split; [exact Hp|].
    split; [exact Hpq|].
    rewrite run_close. apply run_chr_iff. eexists _, _.
    split; [reflexivity|]. split; [apply is_quote_iff; reflexivity|].
    apply run_plus_iff; [apply space_rejected_by_title|].
    exists ws. eexists. split; [reflexivity|]. split; [exact Hws|].
    split; [exact Hwss|].
    apply run_text_iff; [discriminate|]. eexists; split; [reflexivity|].
    apply run_chr_iff. eexists _, _.
    split; [reflexivity|]. split; [apply is_quote_iff; reflexivity|].
    rewrite run_open.
    apply run_plus_iff; [apply not_quote_rejected_by_quote|].
    exists title. eexists. split; [reflexivity|]. split; [exact Ht|].
    split; [exact Htq|].
    rewrite run_close. apply run_chr_iff. eexists _, _.
    split; [reflexivity|]. split; [apply is_quote_iff; reflexivity|].
    rewrite run_nil. reflexivity.
Qed.

End LinkFacts.

(* ================================================================== *)
(** ** The scan of a document *)

Module ScanFacts.
Import Py Re Crawler Spec PyFacts ReFacts LinkFacts.

Local Arguments run : simpl never.

Lemma scan_skip pat (k : nat) : forall s,
  k <= length s -> scan pat false k s = scan pat false 0 (skipn k s).
Proof.
  induction k as [|k IH]; intros s Hk; [reflexivity|].
  destruct s as [|c s]; simpl in Hk; [lia|].
  simpl. apply IH. lia.
Qed.

Lemma scan_hit pat bos (w rest : str) caps :
  w <> [] ->
  run pat bos (w ++ rest) None [] = Some (caps, rest) ->
  scan pat bos 0 (w ++ rest) = caps :: scan pat false 0 rest.
Proof.
  intros Hw H. destruct w as [|c w]; [congruence|].
  change ((c :: w) ++ rest) with (c :: (w ++ rest)) in *.
  cbn [scan]. rewrite H. f_equal.
  replace (pred (length (c :: w ++ rest) - length rest)) with (length w)
    by (change (length (c :: w ++ rest)) with (S (length (w ++ rest)));
        rewrite length_app; lia).
  rewrite scan_skip by (rewrite length_app; lia).
  rewrite skipn_app, skipn_all, Nat.sub_diag. reflexivity.
Qed.

Lemma scan_miss pat bos c (s : str) :
  run pat bos (c :: s) None [] = None ->
  scan pat bos 0 (c :: s) = scan pat false 0 s.
Proof. intros H. cbn [scan]. rewrite H. reflexivity. Qed.

Lemma occurrence_not_empty href title w : Occurrence href title w -> w <> [].
Proof.
  intros [p [ws [_ [_ [_ [_ [_ [_ [_ ->]]]]]]]]]. discriminate.
Qed.

Lemma no_match_none_at_start bos s :
  run link_pattern bos s None [] = None -> NoneAtStart s.
Proof.
  intros H href title w post Hocc ->.
  assert (E : run link_pattern bos (w ++ post) None [] = Some ([href; title], post))
    by (apply link_match_iff; exists href, title, w; auto).
  congruence.
Qed.

(** A scan stays valid when a character at which no occurrence starts is
    put in front of the text. *)
Lemma Scan_shift c s l : NoneAtStart (c :: s) -> Scan s l -> Scan (c :: s) l.
Proof.
  intros Hc HS. destruct HS as [doc Hnone | pre href title w post l Hocc Hleft HS].
  - apply Scan_none. intros [|d pre] href title w post Hocc E.
    + exact (Hc _ _ _ _ Hocc E).
    + inversion E; subst. exact (Hnone _ _ _ _ _ Hocc eq_refl).
  - change (c :: pre ++ w ++ post) with ((c :: pre) ++ w ++ post).
    apply Scan_hit; [exact Hocc | | exact HS].
    intros [|d pre'] post' E Hne.
    + simpl in E. subst post'. exact Hc.
    + inversion E; subst. apply Hleft with (pre' := pre'); auto.
Qed.

Lemma scan_link_Scan (n : nat) : forall doc bos,
  length doc <= n -> Scan doc (scan link_pattern bos 0 doc).
Proof.
  induction n as [|n IH]; intros doc bos Hn.
  - destruct doc; [|simpl in Hn; lia].
    simpl. apply Scan_none. intros pre href title w post Hocc E.
    apply occurrence_not_empty in Hocc.
    destruct pre; destruct w; simpl in E; congruence.
  - destruct doc as [|c doc].
    + apply (IH [] bos). simpl; lia.
    + destruct (run link_pattern bos (c :: doc) None []) as [[caps rest]|] eqn:E.
      * pose proof E as E'. apply link_match_iff in E'.
        destruct E' as [href [title [w [Hocc [Hdoc ->]]]]].
        pose proof (occurrence_not_empty _ _ _ Hocc) as Hw.
        rewrite Hdoc in *. rewrite (scan_hit _ _ _ _ _ Hw E).
        apply (Scan_hit [] href title w rest); [exact Hocc | |].
        -- intros pre' post' E1 Hne. destruct pre'; destruct post'; simpl in E1;
             congruence.
        -- apply IH. rewrite length_app in Hn.
           destruct w; [congruence | simpl in Hn; lia].
      * rewrite (scan_miss _ _ _ _ E).
        apply Scan_shift; [eapply no_match_none_at_start; eauto|].
        apply IH. simpl in Hn. lia.
Qed.

(** At most one occurrence starts at a position. *)
Lemma occurrence_unique href title w post href' title' w' post' :
  Occurrence href title w -> Occurrence href' title' w' ->
  w ++ post = w' ++ post' ->
  href = href' /\ title = title' /\ post = post'.
Proof.
  intros H1 H2 E.
  assert (E1 : run link_pattern false (w ++ post) None []
               = Some ([href; title], post))
    by (apply link_match_iff; exists href, title, w; auto).
  assert (E2 : run link_pattern false (w' ++ post') None []
               = Some ([href'; title'], post'))
    by (apply link_match_iff; exists href', title', w'; auto).
  rewrite E in E1. rewrite E1 in E2. inversion E2. auto.
Qed.

Lemma leftmost_unique pre w post pre' w' post' href title href' title' :
  Occurrence href title w -> Occurrence href' title' w' ->
  (forall p q, pre' = p ++ q -> q <> [] -> NoneAtStart (q ++ w' ++ post')) ->
  pre ++ w ++ post = pre' ++ w' ++ post' ->
  exists x, pre = pre' ++ x.
Proof.
  intros H1 H2 Hleft E.
  apply app_eq_app in E. destruct E as [x [[E1 E2] | [E1 E2]]].
  - exists x. exact E1.
  - destruct x as [|c x]; [exists []; rewrite app_nil_r in *; auto|].
    exfalso. apply (Hleft pre (c :: x) E1 ltac:(discriminate) href title w post H1).
    symmetry. exact E2.
Qed.

(** The scan of a document is unique. *)
Lemma Scan_functional doc l1 :
  Scan doc l1 -> forall l2, Scan doc l2 -> l1 = l2.
Proof.
  induction 1 as [doc Hnone | pre href title w post l Hocc Hleft HS IH];
    intros l2 H2.
  - inversion H2 as [|pre' href' title' w' post' l' Hocc' _ _ Hdoc]; subst;
      [reflexivity|].
    exfalso. exact (Hnone _ _ _ _ _ Hocc' eq_refl).
  - inversion H2 as [doc' Hnone' | pre' href' title' w' post' l' Hocc' Hleft' HS' Hdoc];
      subst.
    + exfalso. exact (Hnone' _ _ _ _ _ Hocc eq_refl).
    + destruct (leftmost_unique _ _ _ _ _ _ _ _ _ _ Hocc Hocc' Hleft' (eq_sym Hdoc))
        as [x Hx].
      destruct (leftmost_unique _ _ _ _ _ _ _ _ _ _ Hocc' Hocc Hleft Hdoc)
        as [y Hy].
      assert (Hyn : y = []).
      { rewrite Hy in Hx. apply (f_equal (@length ascii)) in Hx.
        rewrite !length_app in Hx. destruct y; [reflexivity | simpl in Hx; lia]. }
      subst y. rewrite app_nil_r in Hy. subst pre'.
      apply app_inv_head in Hdoc.
      destruct (occurrence_unique _ _ _ _ _ _ _ _ Hocc' Hocc Hdoc)
        as [-> [-> ->]].
      f_equal. apply IH. exact HS'.
Qed.

(** Every element of [matches] is a pair whose text holds no double quote. *)
Lemma Scan_groups doc l :
  Scan doc l ->
  Forall (fun m => exists href title, m = [href; title] /\ NoQuote title) l.
Proof.
  induction 1 as [|pre href title w post l Hocc _ _ IH]; constructor; auto.
  destruct Hocc as [p [ws [_ [_ [_ [_ [_ [_ [Hq _]]]]]]]]]. eauto.
Qed.

End ScanFacts.

(* ================================================================== *)
(** ** The gates of the classifier *)

Module ClassifierFacts.
Import Py Re Crawler Spec PyFacts ReFacts.

Lemma is_allowed_iff c : is_allowed c = true <-> Allowed c.
Proof.
  unfold is_allowed, Allowed.
  rewrite !orb_true_iff, !Ascii.eqb_eq, is_alpha_iff, is_digit_iff, is_space_iff.
  simpl In. intuition congruence.
Qed.

Lemma is_digit_or_hyphen_iff c :
  is_digit_or_hyphen c = true <-> Digit c \/ c = "-"%char.
Proof.
  unfold is_digit_or_hyphen.
  rewrite orb_true_iff, Ascii.eqb_eq, is_digit_iff. tauto.
Qed.

Lemma gate_length (name : str) :
  (match name with [] => true | _ => false end || (length name <? 2)) = false
  <-> 2 <= length name.
Proof.
  rewrite orb_false_iff, Nat.ltb_ge. split.
  - tauto.
  - intros H. split; [|exact H]. destruct name; [simpl in H; lia | reflexivity].
Qed.

Lemma gate_skip (name : str) :
  in_list (lower name) skip_terms
  || any (fun term => contains term (lower name)) skip_terms = false
  <-> forall term, In term skip_terms ->
                   lower name <> term /\ ~ Substring term (lower name).
Proof.
  rewrite orb_false_iff. split.
  - intros [H1 H2] term Hin. split.
    + intros E. rewrite <- E in Hin. apply in_list_iff in Hin. congruence.
    + intros Hsub.
      assert (any (fun t => contains t (lower name)) skip_terms = true)
        by (apply any_contains_iff; eauto).
      congruence.
  - intros H. split.
    + destruct (in_list (lower name) skip_terms) eqn:E; [|reflexivity].
      apply in_list_iff in E. destruct (H _ E) as [Hne _]. congruence.
    + destruct (any (fun t => contains t (lower name)) skip_terms) eqn:E;
        [|reflexivity].
      apply any_contains_iff in E. destruct E as [t [Hin Hsub]].
      destruct (H _ Hin) as [_ Hno]. contradiction.
Qed.

Lemma gate_letter (name : str) :
  truthy (re_search letter_pattern name) = true <->
  exists c, In c name /\ Letter c.
Proof.
  unfold letter_pattern. rewrite re_search_chr, existsb_exists.
  split; intros [c [H1 H2]]; exists c; split; auto; apply is_alpha_iff; auto.
Qed.

Lemma gate_digit_or_hyphen (name : str) :
  truthy (re_search digit_or_hyphen_pattern name) = true <->
  exists c, In c name /\ (Digit c \/ c = "-"%char).
Proof.
  unfold digit_or_hyphen_pattern. rewrite re_search_chr, existsb_exists.
  split; intros [c [H1 H2]]; exists c; split; auto;
    apply is_digit_or_hyphen_iff; auto.
Qed.

(** The anchored class pattern accepts the non-empty texts made of allowed
    characters: the end anchor also matches in front of a final line feed,
    which is itself in the class. *)
Lemma gate_allowed (name : str) :
  truthy (re_match allowed_pattern name) = true <->
  name <> [] /\ forall c, In c name -> Allowed c.
Proof.
  rewrite re_match_iff. unfold MatchesFromStart, allowed_pattern. split.
  - intros [rest H].
    inversion H as [| | | pat s r H1 | | |]; subst.
    inversion H1 as [| |p lo hi pat bos w s r Hw Hlo Hhi H2| | | |]; subst.
    inversion H2 as [| | | |pat bos s' r Hs H3| |]; subst.
    split.
    + destruct w; [simpl in Hlo; lia | discriminate].
    + intros c Hc. apply is_allowed_iff. apply in_app_or in Hc.
      destruct Hc as [Hc|Hc].
      * rewrite Forall_forall in Hw. auto.
      * destruct Hs as [-> | ->]; simpl in Hc; [contradiction|].
        destruct Hc as [<-|[]]. reflexivity.
  - intros [Hne Hall]. exists [].
    apply M_bol. rewrite <- (app_nil_r name). apply M_rep.
    + apply Forall_forall. intros c Hc. apply is_allowed_iff. auto.
    + destruct name; [congruence | simpl; lia].
    + discriminate.
    + apply M_eol; [left; reflexivity | apply M_nil].
Qed.

Lemma has_alphanum_iff (name : str) :
  has_alphanum name = true <->
  (exists c, In c name /\ Letter c)
  /\ (exists c, In c name /\ (Digit c \/ c = "-"%char)).
Proof.
  unfold has_alphanum.
  rewrite andb_true_iff, gate_letter, gate_digit_or_hyphen. tauto.
Qed.

Lemma has_aircraft_name_iff (name : str) :
  has_aircraft_name name = true <->
  exists frag, In frag aircraft_names /\ Substring frag (lower name).
Proof. apply any_contains_iff. Qed.

Lemma has_designation_iff (name : str) :
  has_designation name = true <->
  exists pat, In pat designation_patterns /\ MatchesFromStart pat name.
Proof.
  unfold has_designation, any. rewrite existsb_exists.
  split; intros [pat [H1 H2]]; exists pat; split; auto; apply re_match_iff; auto.
Qed.

End ClassifierFacts.

(* ================================================================== *)
(** ** Removal of duplicates *)

Module DedupFacts.
Import Py Re Crawler Spec PyFacts.

Lemma set_contains_place hash (x y : str) (s : pyset) :
  set_contains y (place hash x s) = eqb_str y x || set_contains y s.
Proof.
  unfold set_contains. induction s as [|z s IH]; simpl; [reflexivity|].
  destruct (hash x <=? hash z)%N; simpl; [reflexivity|].
  rewrite IH. destruct (eqb_str y x), (eqb_str y z); reflexivity.
Qed.

(** Membership after [add] does not depend on the slot order. *)
Lemma set_contains_add hash (x y : str) (s : pyset) :
  set_contains y (set_add hash x s) = eqb_str y x || set_contains y s.
Proof.
  unfold set_add. destruct (set_contains x s) eqn:E.
  - destruct (eqb_str y x) eqn:Eyx; [|reflexivity].
    apply eqb_str_eq in Eyx. subst. simpl. exact E.
  - apply set_contains_place.
Qed.

Lemma dedup_fold hash (l : list aircraft) :
  forall (seen : pyset) (seenl : list str) (acc : list aircraft),
    (forall u, set_contains u seen = in_list u seenl) ->
    snd (fold_left (dedup_step hash) l (seen, acc))
    = acc ++ first_occurrences seenl l.
Proof.
  induction l as [|[name url] l IH]; intros seen seenl acc Hseen; simpl.
  - rewrite app_nil_r. reflexivity.
  - rewrite Hseen. destruct (in_list url seenl) eqn:E; simpl.
    + apply IH. exact Hseen.
    + rewrite (IH _ (url :: seenl)).
      * rewrite <- app_assoc. reflexivity.
      * intros u. rewrite set_contains_add, Hseen. reflexivity.
Qed.

Lemma remove_duplicates_first_occurrences hash (l : list aircraft) :
  remove_duplicates hash l = first_occurrences [] l.
Proof.
  unfold remove_duplicates. rewrite (dedup_fold hash l set_empty []); auto.
Qed.

Lemma first_occurrences_Subseq (l : list aircraft) :
  forall seen, Subseq (first_occurrences seen l) l.
Proof.
  induction l as [|a l IH]; intros seen; simpl; [constructor|].
  destruct (in_list (snd a) seen); constructor; apply IH.
Qed.

Lemma first_occurrences_fresh (l : list aircraft) :
  forall seen a, In a (first_occurrences seen l) -> in_list (snd a) seen = false.
Proof.
  induction l as [|b l IH]; intros seen a; simpl; [contradiction|].
  destruct (in_list (snd b) seen) eqn:E; [apply IH|].
  intros [<-|Hin]; [exact E|].
  apply IH in Hin. unfold in_list in *. simpl in Hin.
  apply orb_false_iff in Hin. exact (proj2 Hin).
Qed.

Lemma first_occurrences_NoDup (l : list aircraft) :
  forall seen, NoDup (map snd (first_occurrences seen l)).
Proof.
  induction l as [|b l IH]; intros seen; simpl; [constructor|].
  destruct (in_list (snd b) seen); [apply IH|].
  simpl. constructor; [|apply IH].
  intros Hin. apply in_map_iff in Hin. destruct Hin as [a [Ha Hin]].
  apply first_occurrences_fresh in Hin. simpl in Hin.
  rewrite Ha, eqb_str_refl in Hin. discriminate.
Qed.

Lemma first_occurrences_filter (u : str) (l : list aircraft) :
  forall seen,
    filter (has_url u) (first_occurrences seen l)
    = if in_list u seen then []
      else match first_with_url u l with
           | Some a => [a]
           | None => []
           end.
Proof.
  unfold first_with_url.
  induction l as [|b l IH]; intros seen; simpl.
  - destruct (in_list u seen); reflexivity.
  - destruct (in_list (snd b) seen) eqn:Eb.
    + rewrite IH. destruct (in_list u seen) eqn:Eu; [reflexivity|].
      destruct (has_url u b) eqn:Hb; [|reflexivity].
      apply eqb_str_eq in Hb. congruence.
    + simpl. destruct (has_url u b) eqn:Hb.
      * pose proof Hb as Hb'. apply eqb_str_eq in Hb'. subst u.
        rewrite IH. simpl. rewrite eqb_str_refl, Eb. reflexivity.
      * rewrite IH. simpl.
        replace (eqb_str u (snd b)) with false; [reflexivity|].
        symmetry. apply eqb_str_neq. intros ->.
        unfold has_url in Hb. rewrite eqb_str_refl in Hb. discriminate.
Qed.

Lemma Subseq_incl {A : Type} (l1 l2 : list A) :
  Subseq l1 l2 -> forall x, In x l1 -> In x l2.
Proof.
  induction 1; intros y Hy; simpl in *; intuition auto.
Qed.

Lemma Permutation_filter {A : Type} (f : A -> bool) (l l' : list A) :
  Permutation l l' -> Permutation (filter f l) (filter f l').
Proof.
  induction 1 as [|x l l' _ IH|x y l|l l' l'' _ IH1 _ IH2]; simpl.
  - constructor.
  - destruct (f x); [constructor|]; exact IH.
  - destruct (f x), (f y); try reflexivity. constructor.
  - etransitivity; eauto.
Qed.

End DedupFacts.

(* ================================================================== *)
(** ** The sort *)

Module SortFacts.
Import Py Crawler Spec PyFacts.

Section Sort.
Context {A : Type} (key : A -> str).

Lemma insert_sorted_perm (x : A) (l : list A) :
  Permutation (x :: l) (insert_sorted key x l).
Proof.
  induction l as [|y l IH]; simpl; [reflexivity|].
  destruct (str_leb (key x) (key y)); [reflexivity|].
  etransitivity; [apply perm_swap|]. constructor. exact IH.
Qed.

Lemma sorted_perm (l : list A) : Permutation l (sorted key l).
Proof.
  induction l as [|x l IH]; simpl; [constructor|].
  etransitivity; [|apply insert_sorted_perm]. constructor. exact IH.
Qed.

Lemma insert_sorted_HdRel (x y : A) (l : list A) :
  key_le key y x -> HdRel (key_le key) y l -> HdRel (key_le key) y (insert_sorted key x l).
Proof.
  intros Hyx Hy. destruct l as [|z l]; simpl; [constructor; exact Hyx|].
  inversion Hy; subst.
  destruct (str_leb (key x) (key z)); constructor; assumption.
Qed.

Lemma insert_sorted_Sorted (x : A) (l : list A) :
  Sorted (key_le key) l -> Sorted (key_le key) (insert_sorted key x l).
Proof.
  induction 1 as [|y l Hl IH Hy]; simpl.
  - constructor; constructor.
  - destruct (str_leb (key x) (key y)) eqn:E.
    + constructor; [constructor; assumption | constructor; exact E].
    + constructor; [exact IH|].
      apply insert_sorted_HdRel; [|exact Hy].
      destruct (str_leb_total (key x) (key y)) as [H|H]; [congruence|exact H].
Qed.

Lemma sorted_Sorted (l : list A) : Sorted (key_le key) (sorted key l).
Proof.
  induction l as [|x l IH]; simpl; [constructor|].
  apply insert_sorted_Sorted. exact IH.
Qed.

Lemma insert_sorted_filter (k : str) (x : A) (l : list A) :
  filter (fun a => eqb_str (key a) k) (insert_sorted key x l)
  = filter (fun a => eqb_str (key a) k) (x :: l).
Proof.
  induction l as [|y l IH]; [reflexivity|].
  simpl insert_sorted. destruct (str_leb (key x) (key y)) eqn:E; [reflexivity|].
  simpl. simpl in IH. rewrite IH.
  destruct (eqb_str (key x) k) eqn:Ex, (eqb_str (key y) k) eqn:Ey; try reflexivity.
  apply eqb_str_eq in Ex, Ey. rewrite Ex, Ey, str_leb_refl in E. discriminate.
Qed.

Lemma sorted_filter (k : str) (l : list A) :
  filter (fun a => eqb_str (key a) k) (sorted key l)
  = filter (fun a => eqb_str (key a) k) l.
Proof.
  induction l as [|x l IH]; [reflexivity|].
  simpl sorted. rewrite insert_sorted_filter. simpl. rewrite IH. reflexivity.
Qed.

Lemma Sorted_adjacent (l pre post : list A) (a b : A) :
  Sorted (key_le key) l -> l = pre ++ a :: b :: post -> key_le key a b.
Proof.
  intros H. revert pre. induction H as [|x l Hl IH Hx]; intros pre E.
  - destruct pre; discriminate.
  - destruct pre as [|c pre]; simpl in E; inversion E; subst.
    + inversion Hx; subst. assumption.
    + eapply IH. reflexivity.
Qed.
End Sort.

End SortFacts.

(* ================================================================== *)
(** ** The first loop *)

Module CollectFacts.
Import Py Re Crawler Spec PyFacts ScanFacts.

Lemma collect_cases base_url acc href title :
  collect base_url acc [href; title]
  = if excluded href title then acc
    else if is_aircraft_name title
         then acc ++ [(title, base_url ++ href)]
         else acc.
Proof.
  unfold collect, excluded.
  destruct (href_skipped href), (title_skipped title); reflexivity.
Qed.

(** Every name collected is the text of some match. *)
Lemma collect_fold_names (P : str -> Prop) base_url (ms : list (list str)) :
  forall acc,
    Forall (fun m => exists href title, m = [href; title] /\ P title) ms ->
    Forall (fun a => P (fst a)) acc ->
    Forall (fun a => P (fst a)) (fold_left (collect base_url) ms acc).
Proof.
  induction ms as [|m ms IH]; intros acc Hms Hacc; simpl; [exact Hacc|].
  inversion Hms as [|m' ms' Hm Hms']; subst.
  apply IH; [exact Hms'|].
  destruct Hm as [href [title [-> Ht]]]. rewrite collect_cases.
  destruct (excluded href title); [exact Hacc|].
  destruct (is_aircraft_name title); [|exact Hacc].
  apply Forall_app. split; [exact Hacc|]. constructor; [exact Ht | constructor].
Qed.

Lemma matches_Scan (doc : str) : Scan doc (matches doc).
Proof.
  unfold matches, findall. apply (scan_link_Scan (length doc)). apply le_n.
Qed.

End CollectFacts.

(* ================================================================== *)
(** ** The claims *)

Import Py Re Crawler Spec.
Import PyFacts ReFacts LinkFacts ScanFacts ClassifierFacts DedupFacts SortFacts
       CollectFacts.

(** C1. [is_aircraft_name] is true exactly when the five gates pass: at
    least two characters; the lower-cased name neither equals nor contains a
    skip term; at least one letter; only allowed characters; and one of the
    three signals (a letter together with a digit or hyphen, a known name
    fragment in the lower-cased name, a designation pattern matching from
    the start). *)
Theorem is_aircraft_name_iff (name : str) :
  is_aircraft_name name = true <->
  2 <= length name
  /\ (forall term, In term skip_terms ->
                   lower name <> term /\ ~ Substring term (lower name))
  /\ (exists c, In c name /\ Letter c)
  /\ (forall c, In c name -> Allowed c)
  /\ (((exists c, In c name /\ Letter c)
       /\ (exists c, In c name /\ (Digit c \/ c = "-"%char)))
      \/ (exists frag, In frag aircraft_names /\ Substring frag (lower name))
      \/ (exists pat, In pat designation_patterns /\ MatchesFromStart pat name)).
Proof.
  unfold is_aircraft_name. split.
  - intros H.
    match type of H with
    | (if ?b then _ else _) = _ => destruct b eqn:E1; [discriminate|]
    end.
    match type of H with
    | (if ?b then _ else _) = _ => destruct b eqn:E2; [discriminate|]
    end.
    match type of H with
    | (if ?b then _ else _) = _ => destruct b eqn:E3; [discriminate|]
    end.
    match type of H with
    | (if ?b then _ else _) = _ => destruct b eqn:E4; [discriminate|]
    end.
    apply negb_false_iff in E3, E4.
    pose proof (proj1 (gate_length name) E1) as G1.
    pose proof (proj1 (gate_skip name) E2) as G2.
    pose proof (proj1 (gate_letter name) E3) as G3.
    pose proof (proj1 (gate_allowed name) E4) as [_ G4].
    rewrite !orb_true_iff in H.
    rewrite has_alphanum_iff, has_aircraft_name_iff, has_designation_iff in H.
    tauto.
  - intros (H1 & H2 & H3 & H4 & H5).
    assert (G4 : truthy (re_match allowed_pattern name) = true).
    { apply gate_allowed. split; [|exact H4].
      destruct name; [simpl in H1; lia | discriminate]. }
    pose proof (proj2 (gate_length name) H1) as G1.
    pose proof (proj2 (gate_skip name) H2) as G2.
    pose proof (proj2 (gate_letter name) H3) as G3.
    rewrite G1, G2, G3, G4. simpl.
    rewrite !orb_true_iff.
    rewrite has_alphanum_iff, has_aircraft_name_iff, has_designation_iff.
    tauto.
Qed.

(** C2. On the Mariner link of the source the extractor returns the name
    [PBM-1 ] (cut at the first embedded quote, trailing space kept), not the
    title the link carries; the url is the base address followed by the
    undecoded path.  In a document that keeps the backslashes the link gives
    no aircraft at all. *)
Theorem mariner_title_truncated (hash : str -> N) (base_url : str) :
  extract_aircraft_from_html_content hash mariner_doc base_url
  = [(lit "PBM-1 ", base_url ++ lit "/PBM-1_%22Mariner%22")]
  /\ lit "PBM-1 " <> mariner_title
  /\ extract_aircraft_from_html_content hash mariner_doc_escaped base_url = [].
Proof.
  split; [vm_compute; reflexivity|]. split; [discriminate|].
  vm_compute; reflexivity.
Qed.

(** C3, as stated, fails: two attributes with no white space between them
    have the link shape of the claim and give no pair. *)
Lemma glued_attributes_not_extracted : ~ every_shaped_substring_is_extracted.
Proof.
  intros H.
  specialize (H glued_doc [] (lit "a") [] (lit "b") []).
  assert (Hin : In ["/"%char :: lit "a"; lit "b"] (matches glued_doc)).
  { apply H; try discriminate.
    - intros [E|[]]. discriminate E.
    - intros [E|[]]. discriminate E.
    - simpl. lia.
    - constructor.
    - unfold glued_doc. rewrite app_nil_r. reflexivity. }
  vm_compute in Hin. exact Hin.
Qed.

(** C3, amended.  [matches] is the left-to-right scan of the document for
    link occurrences: the leftmost occurrence gives the first pair, the scan
    goes on after it, and a document without occurrence gives the empty
    list.  An occurrence has one or more white space characters between the
    two attributes. *)
Theorem matches_scan (doc : str) (l : list (list str)) :
  Scan doc l <-> l = matches doc.
Proof.
  split.
  - intros H. exact (Scan_functional _ _ H _ (matches_Scan doc)).
  - intros ->. apply matches_Scan.
Qed.

(** C4. A pair is dropped by the exclusion filter exactly when the
    lower-cased href contains a marker of the href list or the lower-cased
    title contains a phrase of the title list; a phrase anywhere in the
    title is enough, and a dropped pair never reaches the classifier. *)
Theorem exclusion_filter_iff (href title : str) :
  (excluded href title = true <-> Denylisted href title)
  /\ (forall phrase pre post,
        In phrase title_skips -> lower title = pre ++ phrase ++ post ->
        excluded href title = true)
  /\ (forall base_url acc,
        collect base_url acc [href; title]
        = if excluded href title then acc
          else if is_aircraft_name title
               then acc ++ [(title, base_url ++ href)]
               else acc).
Proof.
  assert (Hiff : excluded href title = true <-> Denylisted href title).
  { unfold excluded, Denylisted, href_skipped, title_skipped.
    rewrite orb_true_iff, !any_contains_iff. reflexivity. }
  split; [exact Hiff|]. split.
  - intros phrase pre post Hin E. apply Hiff. right.
    exists phrase. split; [exact Hin|]. exists pre, post. exact E.
  - intros base_url acc. apply collect_cases.
Qed.

(** C5. [remove_duplicates] keeps, for each url, exactly the first pair
    that carries it, in the order of the input; so does the sorted catalog.
    The same url twice gives one aircraft with the first name. *)
Theorem remove_duplicates_keeps_first (hash : str -> N) (l : list aircraft) :
  Subseq (remove_duplicates hash l) l
  /\ NoDup (map snd (remove_duplicates hash l))
  /\ (forall u,
        filter (has_url u) (remove_duplicates hash l)
        = match first_with_url u l with Some a => [a] | None => [] end)
  /\ (forall u,
        filter (has_url u) (sorted_aircraft (remove_duplicates hash l))
        = match first_with_url u l with Some a => [a] | None => [] end)
  /\ (forall name1 name2 url,
        sorted_aircraft (remove_duplicates hash [(name1, url); (name2, url)])
        = [(name1, url)]).
Proof.
  rewrite remove_duplicates_first_occurrences.
  assert (Hf : forall u,
             filter (has_url u) (first_occurrences [] l)
             = match first_with_url u l with Some a => [a] | None => [] end).
  { intros u. rewrite first_occurrences_filter. reflexivity. }
  split; [apply first_occurrences_Subseq|].
  split; [apply first_occurrences_NoDup|].
  split; [exact Hf|]. split.
  - intros u.
    pose proof (Permutation_filter (has_url u) _ _
                  (sorted_perm name_key (first_occurrences [] l))) as HP.
    rewrite Hf in HP. unfold sorted_aircraft.
    destruct (first_with_url u l).
    + apply Permutation_length_1_inv in HP. exact HP.
    + apply Permutation_nil in HP. exact HP.
  - intros name1 name2 url. rewrite remove_duplicates_first_occurrences.
    simpl. unfold in_list. simpl. rewrite eqb_str_refl. reflexivity.
Qed.

(** C6. The saved catalog is in ascending order of the lower-cased names:
    every adjacent pair is in order; aircraft whose lower-cased names are
    equal keep the order they had; nothing is lost or added; and the text
    written is made of the lines of that list. *)
Theorem catalog_sorted_stable (l : list aircraft) :
  Sorted name_le (sorted_aircraft l)
  /\ (forall pre a b post,
        sorted_aircraft l = pre ++ a :: b :: post ->
        str_leb (lower (fst a)) (lower (fst b)) = true)
  /\ (forall k,
        filter (same_name_as k) (sorted_aircraft l) = filter (same_name_as k) l)
  /\ Permutation l (sorted_aircraft l)
  /\ (forall filename path text,
        save_aircraft_to_file filename l = Some (path, text) ->
        text = concat (map line (sorted_aircraft l))).
Proof.
  assert (HS : Sorted name_le (sorted_aircraft l))
    by (apply (sorted_Sorted name_key)).
  split; [exact HS|]. split; [|split; [|split]].
  - intros pre a b post E.
    exact (Sorted_adjacent name_key _ _ _ _ _ HS E).
  - intros k. apply (sorted_filter name_key).
  - apply sorted_perm.
  - intros filename path text H. destruct l; simpl in H; [discriminate|].
    inversion H. reflexivity.
Qed.

(** C7. The document with the links to [/P-51] (title [P-51]) and
    [/Category:USA] (title [Category]) gives the catalog with the single
    aircraft [P-51] at the base address followed by [/P-51]; both links are
    matched, and the second is dropped by the exclusion filter. *)
Theorem scenario_catalog (hash : str -> N) (base_url : str) :
  matches scenario_doc
  = [[lit "/P-51"; lit "P-51"]; [lit "/Category:USA"; lit "Category"]]
  /\ excluded (lit "/Category:USA") (lit "Category") = true
  /\ extract_aircraft_from_html_content hash scenario_doc base_url
     = [(lit "P-51", base_url ++ lit "/P-51")]
  /\ sorted_aircraft
       (extract_aircraft_from_html_content hash scenario_doc base_url)
     = [(lit "P-51", base_url ++ lit "/P-51")].
Proof.
  repeat split; vm_compute; reflexivity.
Qed.

(** C8. [Hurricane] is classified as an aircraft by the known-name signal
    alone: it has no digit or hyphen and matches no designation pattern. *)
Theorem hurricane_known_name :
  is_aircraft_name (lit "Hurricane") = true
  /\ has_alphanum (lit "Hurricane") = false
  /\ has_aircraft_name (lit "Hurricane") = true
  /\ has_designation (lit "Hurricane") = false.
Proof.
  repeat split; vm_compute; reflexivity.
Qed.

(** C9. Two runs on the same document give the same list and write the
    same text: the only thing that differs between two runs is the string
    hash that orders the slots of [seen_urls], and the result does not
    depend on it. *)
Theorem pipeline_deterministic (hash1 hash2 : str -> N)
    (filename html_content base_url : str) :
  extract_aircraft_from_html_content hash1 html_content base_url
  = extract_aircraft_from_html_content hash2 html_content base_url
  /\ process hash1 filename html_content = process hash2 filename html_content.
Proof.
  unfold process, extract_aircraft_from_html_content.
  rewrite !remove_duplicates_first_occurrences. split; reflexivity.
Qed.

(** C10. No name returned by the extraction holds a double quote, although
    the classifier allows the character: the text group of the link pattern
    is a run of characters other than the double quote. *)
Theorem names_have_no_quote (hash : str -> N) (html_content base_url : str) :
  Forall (fun a => NoQuote (fst a))
         (extract_aircraft_from_html_content hash html_content base_url)
  /\ is_allowed dquote = true.
Proof.
  split; [|reflexivity].
  unfold extract_aircraft_from_html_content.
  rewrite remove_duplicates_first_occurrences.
  assert (Hc : Forall (fun a => NoQuote (fst a))
                      (candidates html_content base_url)).
  { unfold candidates. apply collect_fold_names; [|constructor].
    apply (Scan_groups html_content). apply matches_Scan. }
  rewrite Forall_forall in *. intros a Ha. apply Hc.
  eapply Subseq_incl; [apply first_occurrences_Subseq | exact Ha].
Qed.

(* ================================================================== *)
(** ** The statements at concrete inputs *)

(** [F-16A] passes the five gates. *)
Lemma is_aircraft_name_iff_witness :
  2 <= length (lit "F-16A")
  /\ (forall term, In term skip_terms ->
        lower (lit "F-16A") <> term /\ ~ Substring term (lower (lit "F-16A")))
  /\ (exists c, In c (lit "F-16A") /\ Letter c)
  /\ (forall c, In c (lit "F-16A") -> Allowed c)
  /\ (((exists c, In c (lit "F-16A") /\ Letter c)
       /\ (exists c, In c (lit "F-16A") /\ (Digit c \/ c = "-"%char)))
      \/ (exists frag, In frag aircraft_names
                       /\ Substring frag (lower (lit "F-16A")))
      \/ (exists pat, In pat designation_patterns
                      /\ MatchesFromStart pat (lit "F-16A"))).
Proof.
  apply (proj1 (is_aircraft_name_iff (lit "F-16A"))). vm_compute. reflexivity.
Defined.

(** A document with one link and some text around it. *)
Lemma matches_scan_witness :
  Scan (lit "<a " ++ link_text (lit "/P-51") (lit " ") (lit "P-51") ++ lit ">")
       [[lit "/P-51"; lit "P-51"]].
Proof.
  apply (proj2 (matches_scan _ _)). vm_compute. reflexivity.
Defined.

(** A title that holds a denylisted phrase next to a designation. *)
Lemma exclusion_filter_iff_witness :
  In (lit "category") title_skips
  /\ lower (lit "F-16 Category") = lit "f-16 " ++ lit "category" ++ []
  /\ excluded (lit "/F-16") (lit "F-16 Category") = true.
Proof.
  assert (H1 : In (lit "category") title_skips) by (left; reflexivity).
  assert (H2 : lower (lit "F-16 Category") = lit "f-16 " ++ lit "category" ++ [])
    by reflexivity.
  split; [exact H1|]. split; [exact H2|].
  exact (proj1 (proj2 (exclusion_filter_iff (lit "/F-16") (lit "F-16 Category")))
           (lit "category") (lit "f-16 ") [] H1 H2).
Defined.

(** The same url with two casings of the title. *)
Lemma remove_duplicates_keeps_first_witness :
  filter (has_url (lit "u"))
         (sorted_aircraft
            (remove_duplicates (fun _ => 0%N)
               [(lit "P-51", lit "u"); (lit "Bf 109", lit "v");
                (lit "p-51", lit "u")]))
  = [(lit "P-51", lit "u")].
Proof.
  exact (proj1 (proj2 (proj2 (proj2
           (remove_duplicates_keeps_first (fun _ => 0%N)
              [(lit "P-51", lit "u"); (lit "Bf 109", lit "v");
               (lit "p-51", lit "u")]))))
           (lit "u")).
Defined.

(** Two names equal up to case stay in their order, in front of a larger one. *)
Lemma catalog_sorted_stable_witness :
  sorted_aircraft [(lit "b", lit "1"); (lit "A", lit "2"); (lit "a", lit "3")]
  = [] ++ (lit "A", lit "2") :: (lit "a", lit "3") :: [(lit "b", lit "1")]
  /\ str_leb (lower (lit "A")) (lower (lit "a")) = true.
Proof.
  assert (E : sorted_aircraft
                [(lit "b", lit "1"); (lit "A", lit "2"); (lit "a", lit "3")]
              = [] ++ (lit "A", lit "2") :: (lit "a", lit "3")
                   :: [(lit "b", lit "1")]) by reflexivity.
  split; [exact E|].
  exact (proj1 (proj2 (catalog_sorted_stable
                         [(lit "b", lit "1"); (lit "A", lit "2");
                          (lit "a", lit "3")]))
           [] (lit "A", lit "2") (lit "a", lit "3") [(lit "b", lit "1")] E).
Defined.

(* ================================================================== *)
(** ** Further facts about the two loops *)

Module LoopFacts.
Import Py Re Crawler Spec Main SpecMore.
Import PyFacts ReFacts LinkFacts ScanFacts ClassifierFacts DedupFacts SortFacts
       CollectFacts.

Lemma skip_terms_extend_title_skips :
  exists more, skip_terms = title_skips ++ more.
Proof. eexists. unfold skip_terms, title_skips. rewrite <- map_app. reflexivity. Qed.

(** A title dropped by the title test would be refused by the classifier. *)
Lemma title_skipped_not_aircraft (title : str) :
  title_skipped title = true -> is_aircraft_name title = false.
Proof.
  intros H. unfold title_skipped in H. apply any_contains_iff in H.
  destruct H as [t [Hin Hsub]].
  assert (Hin' : In t skip_terms).
  { destruct skip_terms_extend_title_skips as [more ->].
    apply in_or_app. left. exact Hin. }
  unfold is_aircraft_name.
  destruct (match title with [] => true | _ :: _ => false end
            || (length title <? 2)); [reflexivity|].
  assert (E : in_list (lower title) skip_terms
              || any (fun term => contains term (lower title)) skip_terms = true).
  { apply orb_true_iff. right. apply any_contains_iff. eauto. }
  rewrite E. reflexivity.
Qed.

Lemma collect_fold base_url (ms : list (list str)) :
  forall acc,
    fold_left (collect base_url) ms acc
    = acc ++ map (to_aircraft base_url) (filter admissible ms).
Proof.
  induction ms as [|m ms IH]; intros acc; simpl.
  - rewrite app_nil_r. reflexivity.
  - rewrite IH. destruct m as [|href [|title [|z m]]]; simpl; try reflexivity.
    fold (excluded href title).
    replace (if href_skipped href then acc
             else if title_skipped title then acc
                  else if is_aircraft_name title
                       then acc ++ [(title, base_url ++ href)] else acc)
      with (collect base_url acc [href; title]) by reflexivity.
    rewrite collect_cases.
    destruct (excluded href title); simpl; [reflexivity|].
    destruct (is_aircraft_name title); simpl; [|reflexivity].
    rewrite <- app_assoc. reflexivity.
Qed.

Lemma candidates_filter_map (doc base_url : str) :
  candidates doc base_url
  = map (to_aircraft base_url) (filter admissible (matches doc)).
Proof. unfold candidates. rewrite collect_fold. reflexivity. Qed.

Lemma Scan_occurrences doc l :
  Scan doc l ->
  Forall (fun m => exists href title w,
                     m = [href; title] /\ Occurrence href title w) l.
Proof.
  induction 1 as [|pre href title w post l Hocc _ _ IH]; constructor; eauto.
Qed.

Lemma Scan_whole doc l :
  Scan doc l ->
  Forall (fun m => exists pre href title w post,
                     m = [href; title] /\ Occurrence href title w
                     /\ doc = pre ++ w ++ post) l.
Proof.
  induction 1 as [|pre href title w post l Hocc _ _ IH]; constructor.
  - exists pre, href, title, w, post. auto.
  - rewrite Forall_forall in *. intros m Hm.
    destruct (IH m Hm) as [pre' [h [t [w' [post' [E [Ho Ep]]]]]]].
    exists (pre ++ w ++ pre'), h, t, w', post'. split; [exact E|].
    split; [exact Ho|]. rewrite Ep. rewrite <- !app_assoc. reflexivity.
Qed.

Lemma admissible_shape (m : list str) :
  admissible m = true ->
  exists href title, m = [href; title] /\ excluded href title = false
                     /\ is_aircraft_name title = true.
Proof.
  destruct m as [|href [|title [|z m]]]; simpl; try discriminate.
  rewrite andb_true_iff, negb_true_iff. intros [H1 H2]. eauto.
Qed.

Lemma in_candidates (doc base_url : str) (a : aircraft) :
  In a (candidates doc base_url) <->
  exists href title,
    a = (title, base_url ++ href) /\ In [href; title] (matches doc)
    /\ excluded href title = false /\ is_aircraft_name title = true.
Proof.
  rewrite candidates_filter_map, in_map_iff. split.
  - intros [m [Ha Hm]]. apply filter_In in Hm. destruct Hm as [Hm Hadm].
    destruct (admissible_shape _ Hadm) as [href [title [-> [He Hn]]]].
    exists href, title. simpl in Ha. auto.
  - intros [href [title [-> [Hm [He Hn]]]]]. exists [href; title].
    split; [reflexivity|]. apply filter_In. split; [exact Hm|].
    simpl. rewrite He, Hn. reflexivity.
Qed.

Lemma in_first_occurrences (l : list aircraft) (a : aircraft) :
  In a (first_occurrences [] l) <-> first_with_url (snd a) l = Some a.
Proof.
  pose proof (first_occurrences_filter (snd a) l []) as Hf. simpl in Hf.
  split.
  - intros Hin.
    assert (Hin' : In a (filter (has_url (snd a)) (first_occurrences [] l))).
    { apply filter_In. split; [exact Hin | apply eqb_str_refl]. }
    rewrite Hf in Hin'. destruct (first_with_url (snd a) l) as [b|].
    + destruct Hin' as [->|[]]. reflexivity.
    + destruct Hin'.
  - intros E. rewrite E in Hf.
    assert (Hin : In a (filter (has_url (snd a)) (first_occurrences [] l)))
      by (rewrite Hf; left; reflexivity).
    apply filter_In in Hin. tauto.
Qed.

Lemma first_occurrences_idem (l : list aircraft) :
  forall seen,
    first_occurrences seen (first_occurrences seen l) = first_occurrences seen l.
Proof.
  induction l as [|a l IH]; intros seen; simpl; [reflexivity|].
  destruct (in_list (snd a) seen) eqn:E; [apply IH|].
  simpl. rewrite E, IH. reflexivity.
Qed.

Lemma first_occurrences_id (l : list aircraft) :
  forall seen,
    NoDup (map snd l) ->
    (forall a, In a l -> in_list (snd a) seen = false) ->
    first_occurrences seen l = l.
Proof.
  induction l as [|a l IH]; intros seen Hnd Hfresh; simpl; [reflexivity|].
  rewrite (Hfresh a (or_introl eq_refl)). f_equal.
  inversion Hnd as [|u us Hu Hnd']; subst. apply IH; [exact Hnd'|].
  intros b Hb. unfold in_list. simpl. apply orb_false_iff. split.
  - apply eqb_str_neq. intros E. apply Hu. rewrite <- E.
    apply in_map. exact Hb.
  - apply (Hfresh b). right. exact Hb.
Qed.

Lemma Subseq_length {A : Type} (l1 l2 : list A) :
  Subseq l1 l2 -> length l1 <= length l2.
Proof. induction 1; simpl; lia. Qed.

Lemma filter_length {A : Type} (f : A -> bool) (l : list A) :
  length (filter f l) <= length l.
Proof. induction l as [|x l IH]; simpl; [lia|]. destruct (f x); simpl; lia. Qed.

Lemma occurrence_length href title w :
  Occurrence href title w -> 19 <= length w.
Proof.
  intros [p [ws [-> [Hp [_ [Hws [_ [Ht [_ ->]]]]]]]]].
  unfold link_text. rewrite !length_app.
  destruct p; [congruence|]. destruct ws; [congruence|].
  destruct title; [congruence|]. simpl. lia.
Qed.

Lemma Scan_length doc l : Scan doc l -> 19 * length l <= length doc.
Proof.
  induction 1 as [|pre href title w post l Hocc _ _ IH]; simpl; [lia|].
  apply occurrence_length in Hocc. rewrite !length_app. lia.
Qed.

End LoopFacts.

(* ================================================================== *)
(** ** Further properties of the extraction *)

Import Main SpecMore LoopFacts.

(** X1. Every aircraft returned comes from a link of the document: its name
    is the title of a match, its url is the base address followed by the
    href of that match, the href is a slash and at least one more character
    without double quote, neither test of the exclusion filter fires on the
    pair, and the classifier accepts the name. *)
Theorem extracted_aircraft_sound (hash : str -> N) (doc base_url : str)
    (name url : str) :
  In (name, url) (extract_aircraft_from_html_content hash doc base_url) ->
  exists href,
    In [href; name] (matches doc)
    /\ url = base_url ++ href
    /\ (exists p, href = "/"%char :: p /\ p <> [] /\ NoQuote p)
    /\ href_skipped href = false
    /\ title_skipped name = false
    /\ is_aircraft_name name = true.
Proof.
  unfold extract_aircraft_from_html_content.
  rewrite remove_duplicates_first_occurrences. intros Hin.
  apply (Subseq_incl _ _ (first_occurrences_Subseq _ _)) in Hin.
  apply in_candidates in Hin.
  destruct Hin as [href [title [E [Hm [He Hn]]]]]. inversion E; subst.
  exists href. split; [exact Hm|]. split; [reflexivity|].
  unfold excluded in He. apply orb_false_iff in He. destruct He as [He1 He2].
  repeat split; auto.
  pose proof (Scan_occurrences _ _ (matches_Scan doc)) as HF.
  rewrite Forall_forall in HF. destruct (HF _ Hm) as [h [t [w [E' Hocc]]]].
  inversion E'; subst.
  destruct Hocc as [p [ws [-> [Hp [Hq _]]]]]. exists p. auto.
Qed.

(** X2. The url of every matched link that passes the href test and whose
    title the classifier accepts is in the result (under the name of the
    first such link with that url). *)
Theorem admissible_link_url_kept (hash : str -> N) (doc base_url : str)
    (href title : str) :
  In [href; title] (matches doc) ->
  href_skipped href = false ->
  is_aircraft_name title = true ->
  exists name,
    In (name, base_url ++ href)
       (extract_aircraft_from_html_content hash doc base_url).
Proof.
  intros Hm Hh Hn.
  assert (Ht : title_skipped title = false).
  { destruct (title_skipped title) eqn:E; [|reflexivity].
    apply title_skipped_not_aircraft in E. congruence. }
  assert (Hc : In (title, base_url ++ href) (candidates doc base_url)).
  { apply in_candidates. exists href, title. unfold excluded.
    rewrite Hh, Ht. auto. }
  unfold extract_aircraft_from_html_content.
  rewrite remove_duplicates_first_occurrences.
  destruct (first_with_url (base_url ++ href) (candidates doc base_url))
    as [[n u]|] eqn:E.
  - pose proof E as E'. apply find_some in E'. destruct E' as [_ Hu].
    apply eqb_str_eq in Hu. simpl in Hu. subst u.
    exists n. apply in_first_occurrences. exact E.
  - unfold first_with_url in E.
    pose proof (find_none _ _ E _ Hc) as Hf. unfold has_url in Hf. simpl in Hf.
    rewrite eqb_str_refl in Hf. discriminate.
Qed.

(** X3. An aircraft is in the result of [remove_duplicates] exactly when it
    is the first pair of the input with its url: a later pair with the same
    url and another name is lost. *)
Theorem in_remove_duplicates_iff (hash : str -> N) (l : list aircraft)
    (a : aircraft) :
  In a (remove_duplicates hash l) <-> first_with_url (snd a) l = Some a.
Proof.
  rewrite remove_duplicates_first_occurrences. apply in_first_occurrences.
Qed.

(** X4. The title test of the first loop never changes the outcome: every
    phrase of its list is also a skip term of the classifier, so the body of
    the loop is decided by the href test and the classifier alone. *)
Theorem title_test_redundant (base_url : str) (acc : list aircraft)
    (href title : str) :
  collect base_url acc [href; title]
  = if href_skipped href then acc
    else if is_aircraft_name title
         then acc ++ [(title, base_url ++ href)]
         else acc.
Proof.
  rewrite collect_cases. unfold excluded.
  destruct (href_skipped href); [reflexivity|]. simpl.
  destruct (title_skipped title) eqn:E; [|reflexivity].
  rewrite (title_skipped_not_aircraft _ E). reflexivity.
Qed.

(** X5. [remove_duplicates] is idempotent, whatever the hashes of the two
    runs, and it returns its input unchanged exactly when the urls of the
    input are distinct. *)
Theorem remove_duplicates_idempotent (hash1 hash2 : str -> N)
    (l : list aircraft) :
  remove_duplicates hash1 (remove_duplicates hash2 l) = remove_duplicates hash2 l
  /\ (remove_duplicates hash1 l = l <-> NoDup (map snd l)).
Proof.
  rewrite !remove_duplicates_first_occurrences. split.
  - apply first_occurrences_idem.
  - split.
    + intros E. rewrite <- E. apply first_occurrences_NoDup.
    + intros H. apply first_occurrences_id; [exact H | reflexivity].
Qed.

(** X6. A document in which the text [href=] does not occur gives no
    aircraft, and nothing is saved for it. *)
Theorem no_link_no_aircraft (hash : str -> N) (filename doc base_url : str) :
  ~ Substring (lit "href=") doc ->
  extract_aircraft_from_html_content hash doc base_url = []
  /\ save_aircraft_to_file filename
       (extract_aircraft_from_html_content hash doc base_url) = None.
Proof.
  intros Hno.
  assert (Hm : matches doc = []).
  { pose proof (Scan_whole _ _ (matches_Scan doc)) as HF.
    destruct (matches doc) as [|m ms]; [reflexivity|]. exfalso.
    inversion HF as [|m' ms' Hm _]; subst.
    destruct Hm as [pre [href [title [w [post [_ [Hocc ->]]]]]]].
    destruct Hocc as [p [ws [_ [_ [_ [_ [_ [_ [_ ->]]]]]]]]].
    apply Hno. exists pre. unfold link_text. rewrite <- !app_assoc.
    eexists. reflexivity. }
  assert (E : extract_aircraft_from_html_content hash doc base_url = []).
  { unfold extract_aircraft_from_html_content, candidates. rewrite Hm.
    reflexivity. }
  rewrite E. split; reflexivity.
Qed.

(** X7. A link takes at least nineteen characters of the document, so the
    number of aircraft returned is at most the length of the document
    divided by nineteen. *)
Theorem extraction_bound (hash : str -> N) (doc base_url : str) :
  19 * length (extract_aircraft_from_html_content hash doc base_url)
  <= length doc.
Proof.
  unfold extract_aircraft_from_html_content.
  rewrite remove_duplicates_first_occurrences.
  pose proof (Subseq_length _ _
                (first_occurrences_Subseq (candidates doc base_url) [])) as H1.
  rewrite candidates_filter_map in *. rewrite length_map in H1.
  pose proof (filter_length admissible (matches doc)) as H2.
  pose proof (Scan_length _ _ (matches_Scan doc)) as H3. lia.
Qed.

(* ================================================================== *)
(** ** Further facts about the sort, the lines and the classifier *)

Module CatalogFacts.
Import Py Re Crawler Spec Main SpecMore.
Import PyFacts ReFacts ClassifierFacts DedupFacts SortFacts CollectFacts LoopFacts.

Lemma sorted_id {A : Type} (key : A -> str) (l : list A) :
  Sorted (key_le key) l -> sorted key l = l.
Proof.
  induction 1 as [|x l Hl IH Hx]; simpl; [reflexivity|].
  rewrite IH. destruct Hx as [|y l' Hxy]; simpl; [reflexivity|].
  unfold key_le in Hxy. rewrite Hxy. reflexivity.
Qed.

Lemma key_le_trans {A : Type} (key : A -> str) :
  Relations_1.Transitive (key_le key).
Proof. intros x y z. unfold key_le. apply str_leb_trans. Qed.

Lemma NoDup_map_eq {A B : Type} (f : A -> B) (l : list A) (x y : A) :
  NoDup (map f l) -> In x l -> In y l -> f x = f y -> x = y.
Proof.
  induction l as [|a l IH]; simpl; intros Hnd Hx Hy E; [contradiction|].
  inversion Hnd as [|b bs Hb Hnd']; subst.
  destruct Hx as [->|Hx], Hy as [->|Hy]; auto.
  - exfalso. apply Hb. rewrite E. apply in_map. exact Hy.
  - exfalso. apply Hb. rewrite <- E. apply in_map. exact Hx.
Qed.

(** Two sorted arrangements of the same elements are equal when the keys
    are distinct. *)
Lemma sorted_unique {A : Type} (key : A -> str) (l : list A) :
  forall l',
    StronglySorted (key_le key) l -> StronglySorted (key_le key) l' ->
    Permutation l l' -> NoDup (map key l) -> l = l'.
Proof.
  induction l as [|x t IH]; intros l' Hs Hs' Hp Hnd.
  - apply Permutation_nil in Hp. auto.
  - destruct l' as [|y t'].
    + apply Permutation_sym, Permutation_nil in Hp. discriminate.
    + inversion Hs as [|x0 t0 Hst Hfx]; subst.
      inversion Hs' as [|y0 t0' Hst' Hfy]; subst.
      rewrite Forall_forall in Hfx, Hfy.
      assert (Hy : In y (x :: t))
        by (apply (Permutation_in _ (Permutation_sym Hp)); left; reflexivity).
      assert (Hx : In x (y :: t'))
        by (apply (Permutation_in _ Hp); left; reflexivity).
      assert (Hxy : key_le key x y).
      { destruct Hy as [<-|Hy]; [apply str_leb_refl | auto]. }
      assert (Hyx : key_le key y x).
      { destruct Hx as [<-|Hx]; [apply str_leb_refl | auto]. }
      assert (E : x = y).
      { apply (NoDup_map_eq key (x :: t)); auto; [left; reflexivity|].
        apply str_leb_antisym; assumption. }
      subst y. f_equal. apply Permutation_cons_inv in Hp.
      simpl in Hnd. inversion Hnd; subst. apply IH; auto.
Qed.

Lemma is_aircraft_name_allowed (name : str) :
  is_aircraft_name name = true -> forall c, In c name -> is_allowed c = true.
Proof.
  unfold is_aircraft_name. intros H.
  match type of H with
  | (if ?b then _ else _) = _ => destruct b; [discriminate|]
  end.
  match type of H with
  | (if ?b then _ else _) = _ => destruct b; [discriminate|]
  end.
  match type of H with
  | (if ?b then _ else _) = _ => destruct b; [discriminate|]
  end.
  match type of H with
  | (if ?b then _ else _) = _ => destruct b eqn:E4; [discriminate|]
  end.
  apply negb_false_iff in E4.
  pose proof (proj1 (gate_allowed name) E4) as [_ G4].
  intros c Hc. apply is_allowed_iff. auto.
Qed.

Lemma is_aircraft_name_no_bar (name : str) :
  is_aircraft_name name = true -> ~ In bar name.
Proof.
  intros H Hin. apply (is_aircraft_name_allowed _ H) in Hin. discriminate Hin.
Qed.

Lemma split_at_bar (n n' r r' : str) :
  ~ In bar n -> ~ In bar n' -> n ++ bar :: r = n' ++ bar :: r' ->
  n = n' /\ r = r'.
Proof.
  revert n'; induction n as [|c n IH]; intros [|c' n'] H1 H2 E; simpl in *.
  - inversion E. auto.
  - inversion E; subst. exfalso. apply H2. left. reflexivity.
  - inversion E; subst. exfalso. apply H1. left. reflexivity.
  - inversion E; subst.
    destruct (IH n') as [-> ->]; auto.
Qed.

Lemma line_inj (a b : aircraft) :
  ~ In bar (fst a) -> ~ In bar (fst b) -> line a = line b -> a = b.
Proof.
  destruct a as [n u], b as [n' u']. simpl. unfold line. simpl.
  intros H1 H2 E.
  destruct (split_at_bar _ _ _ _ H1 H2 E) as [-> E'].
  apply app_inv_tail in E'. subst. reflexivity.
Qed.

Lemma NoDup_map_on {A B : Type} (f : A -> B) (l : list A) :
  (forall x y, In x l -> In y l -> f x = f y -> x = y) ->
  NoDup l -> NoDup (map f l).
Proof.
  induction l as [|a l IH]; intros Hinj Hnd; simpl; [constructor|].
  inversion Hnd as [|a' l' Ha Hnd']; subst. constructor.
  - intros Hin. apply in_map_iff in Hin. destruct Hin as [b [E Hb]].
    assert (b = a) by (apply Hinj; simpl; auto). subst. contradiction.
  - apply IH; [|exact Hnd']. intros x y Hx Hy. apply Hinj; simpl; auto.
Qed.



Lemma name_found_iff (wanted : str) (l : list aircraft) :
  name_found wanted l = true <->
  exists url, first_named wanted l = Some (wanted, url).
Proof.
  unfold name_found, first_named, any.
  induction l as [|[n u] l IH]; simpl.
  - split; [discriminate | intros [url H]; discriminate].
  - destruct (eqb_str wanted n) eqn:E; simpl.
    + apply eqb_str_eq in E. subst. split; [eauto | reflexivity].
    + exact IH.
Qed.

Lemma save_all_fold (nd : list (str * list aircraft)) :
  forall files total,
    fold_left save_nation nd (files, total)
    = (files ++ flat_map
                  (fun e => match save_aircraft_to_file
                                    (nation_filename (fst e)) (snd e) with
                            | Some f => [f]
                            | None => []
                            end) nd,
       total + length (concat (map snd nd))).
Proof.
  induction nd as [|[nation l] nd IH]; intros files total; simpl.
  - rewrite app_nil_r, Nat.add_0_r. reflexivity.
  - rewrite IH. rewrite length_app.
    destruct (save_aircraft_to_file (nation_filename nation) l);
      rewrite <- ?app_assoc, ?app_nil_r; simpl; f_equal; lia.
Qed.

End CatalogFacts.

(* ================================================================== *)
(** ** Further properties of the catalog, the classifier and [main] *)

Import CatalogFacts.

(** X8. The sort leaves a list unchanged exactly when the list is already
    in ascending order of the lower-cased names; so sorting twice is sorting
    once, and a catalog that is saved after being sorted gives the same
    file. *)
Theorem sorted_aircraft_fixed (l : list aircraft) :
  (sorted_aircraft l = l <-> Sorted name_le l)
  /\ sorted_aircraft (sorted_aircraft l) = sorted_aircraft l
  /\ (forall filename,
        save_aircraft_to_file filename (sorted_aircraft l)
        = save_aircraft_to_file filename l).
Proof.
  assert (Hid : sorted_aircraft (sorted_aircraft l) = sorted_aircraft l).
  { apply (sorted_id name_key). apply (sorted_Sorted name_key). }
  split; [|split].
  - split.
    + intros E. rewrite <- E. apply (sorted_Sorted name_key).
    + apply (sorted_id name_key).
  - exact Hid.
  - intros filename. unfold save_aircraft_to_file. rewrite Hid.
    destruct l as [|a l]; [reflexivity|].
    destruct (sorted_aircraft (a :: l)) eqn:E; [|reflexivity].
    pose proof (sorted_perm name_key (a :: l)) as HP.
    unfold sorted_aircraft in E. rewrite E in HP.
    apply Permutation_sym, Permutation_nil in HP. discriminate.
Qed.

(** X9. When the lower-cased names are distinct, the sorted catalog, and so
    the file, does not depend on the order in which the aircraft were
    found. *)
Theorem catalog_order_independent (l1 l2 : list aircraft) (filename : str) :
  Permutation l1 l2 ->
  NoDup (map name_key l1) ->
  sorted_aircraft l1 = sorted_aircraft l2
  /\ save_aircraft_to_file filename l1 = save_aircraft_to_file filename l2.
Proof.
  intros HP Hnd.
  assert (E : sorted_aircraft l1 = sorted_aircraft l2).
  { apply (sorted_unique name_key).
    - apply Sorted_StronglySorted; [apply key_le_trans | apply sorted_Sorted].
    - apply Sorted_StronglySorted; [apply key_le_trans | apply sorted_Sorted].
    - apply Permutation_trans with l1;
        [apply Permutation_sym, sorted_perm|].
      apply Permutation_trans with l2; [exact HP | apply sorted_perm].
    - apply (Permutation_NoDup (l := map name_key l1)); [|exact Hnd].
      apply Permutation_map. apply sorted_perm. }
  split; [exact E|]. unfold save_aircraft_to_file. rewrite E.
  destruct l1, l2; try reflexivity.
  - apply Permutation_nil in HP. discriminate.
  - apply Permutation_sym, Permutation_nil in HP. discriminate.
Qed.

(** X10. In the catalog of a document no two aircraft share a url, no name
    holds the separator [|], and no two lines of the file are equal. *)
Theorem catalog_lines_distinct (hash : str -> N) (doc base_url : str) :
  NoDup (map snd
           (sorted_aircraft
              (extract_aircraft_from_html_content hash doc base_url)))
  /\ Forall (fun a => ~ In bar (fst a))
            (sorted_aircraft
               (extract_aircraft_from_html_content hash doc base_url))
  /\ NoDup (map line
              (sorted_aircraft
                 (extract_aircraft_from_html_content hash doc base_url))).
Proof.
  set (out := extract_aircraft_from_html_content hash doc base_url).
  pose proof (sorted_perm name_key out) as HP. fold (sorted_aircraft out) in HP.
  assert (Hnd : NoDup (map snd (sorted_aircraft out))).
  { apply (Permutation_NoDup (l := map snd out));
      [apply Permutation_map; exact HP|].
    unfold out, extract_aircraft_from_html_content.
    rewrite remove_duplicates_first_occurrences. apply first_occurrences_NoDup. }
  assert (Hbar : Forall (fun a => ~ In bar (fst a)) (sorted_aircraft out)).
  { apply Forall_forall. intros [n u] Hin.
    apply (Permutation_in _ (Permutation_sym HP)) in Hin.
    unfold out, extract_aircraft_from_html_content in Hin.
    rewrite remove_duplicates_first_occurrences in Hin.
    apply (Subseq_incl _ _ (first_occurrences_Subseq _ _)) in Hin.
    apply in_candidates in Hin.
    destruct Hin as [href [title [E [_ [_ Hn]]]]]. inversion E; subst.
    simpl. apply is_aircraft_name_no_bar. exact Hn. }
  split; [exact Hnd|]. split; [exact Hbar|].
  apply NoDup_map_on; [|apply (NoDup_map_inv snd); exact Hnd].
  rewrite Forall_forall in Hbar.
  intros x y Hx Hy. apply line_inj; auto.
Qed.

(** X11. A line of the file determines its aircraft: two pairs whose names
    the classifier accepts and whose lines are equal are the same pair. *)
Theorem line_determines_aircraft (a b : aircraft) :
  is_aircraft_name (fst a) = true ->
  is_aircraft_name (fst b) = true ->
  line a = line b -> a = b.
Proof.
  intros Ha Hb. apply line_inj; apply is_aircraft_name_no_bar; assumption.
Qed.


(** X13. The entry looked up in [main] exists whenever the test that guards
    the lookup is true, and only then: [next] cannot raise [StopIteration]
    under the guard.  The entry bears the wanted name, and is the first such
    pair of the list. *)
Theorem guarded_lookup_succeeds (wanted : str) (l : list aircraft) :
  (name_found wanted l = true <->
   exists url, first_named wanted l = Some (wanted, url))
  /\ (name_found wanted l = false <-> first_named wanted l = None)
  /\ (forall a, first_named wanted l = Some a ->
                exists pre post,
                  l = pre ++ a :: post
                  /\ Forall (fun b => fst b <> wanted) pre).
Proof.
  pose proof (name_found_iff wanted l) as Hiff.
  split; [exact Hiff|]. split.
  - split.
    + intros Hf. destruct (first_named wanted l) as [[n u]|] eqn:E; [|reflexivity].
      assert (n = wanted).
      { apply find_some in E. destruct E as [_ E]. apply eqb_str_eq in E.
        simpl in E. congruence. }
      subst n.
      assert (name_found wanted l = true) by (apply name_found_iff; eauto).
      congruence.
    + intros Hn. destruct (name_found wanted l) eqn:E; [|reflexivity].
      apply name_found_iff in E. destruct E as [url E]. congruence.
  - clear Hiff. unfold first_named. induction l as [|b l IH]; simpl; intros a Ha;
      [discriminate|].
    destruct (eqb_str wanted (fst b)) eqn:E.
    + inversion Ha; subst. exists [], l. split; [reflexivity | constructor].
    + destruct (IH a Ha) as [pre [post [-> Hpre]]].
      exists (b :: pre), post. split; [reflexivity|]. constructor; [|exact Hpre].
      apply eqb_str_neq in E. congruence.
Qed.


(** X15. The loop of [main] writes one file for each nation whose list is
    not empty, in the order of [nations_data], and counts every aircraft of
    every nation. *)
Theorem save_all_summary (nations_data : list (str * list aircraft)) :
  map fst (fst (save_all nations_data))
  = map (fun e => lit "data/pages/" ++ nation_filename (fst e))
        (filter (fun e => negb (length (snd e) =? 0)) nations_data)
  /\ snd (save_all nations_data) = length (concat (map snd nations_data)).
Proof.
  unfold save_all. rewrite save_all_fold. simpl. split; [|reflexivity].
  induction nations_data as [|[nation l] nd IH]; simpl; [reflexivity|].
  rewrite map_app, IH. destruct l as [|a l]; simpl; [reflexivity|].
  reflexivity.
Qed.

(* ================================================================== *)
(** ** Further facts about the file and the base address *)

Module FileFacts.
Import Py Re Crawler Spec Main SpecMore.
Import PyFacts DedupFacts SortFacts CollectFacts LoopFacts.

Lemma count_lines (l : list aircraft) :
  count_occ ascii_dec (concat (map line l)) newline
  = length l + count_occ ascii_dec (concat (map fst l)) newline
    + count_occ ascii_dec (concat (map snd l)) newline.
Proof.
  induction l as [|[n u] l IH]; simpl; [reflexivity|].
  unfold line at 1. simpl fst. simpl snd.
  rewrite !count_occ_app, IH. simpl. lia.
Qed.

Lemma count_concat_perm {A : Type} (f : A -> str) (l l' : list A) :
  Permutation l l' ->
  count_occ ascii_dec (concat (map f l)) newline
  = count_occ ascii_dec (concat (map f l')) newline.
Proof.
  intros HP. rewrite <- !flat_map_concat_map.
  apply (Permutation_count_occ ascii_dec). apply Permutation_flat_map. exact HP.
Qed.

Lemma eqb_str_app_head (base a b : str) :
  eqb_str (base ++ a) (base ++ b) = eqb_str a b.
Proof.
  induction base as [|c base IH]; simpl; [reflexivity|].
  rewrite Ascii.eqb_refl. exact IH.
Qed.

Lemma in_list_app_head (base u : str) (seen : list str) :
  in_list (base ++ u) (map (app base) seen) = in_list u seen.
Proof.
  unfold in_list. induction seen as [|v seen IH]; simpl; [reflexivity|].
  rewrite eqb_str_app_head, IH. reflexivity.
Qed.

Lemma first_occurrences_rebase (base : str) (l : list aircraft) :
  forall seen,
    first_occurrences (map (app base) seen)
                      (map (fun a => (fst a, base ++ snd a)) l)
    = map (fun a => (fst a, base ++ snd a)) (first_occurrences seen l).
Proof.
  induction l as [|[n u] l IH]; intros seen; simpl; [reflexivity|].
  rewrite in_list_app_head. destruct (in_list u seen); [apply IH|].
  simpl. f_equal. apply (IH (u :: seen)).
Qed.

Lemma candidates_rebase (doc base_url : str) :
  candidates doc base_url
  = map (fun a => (fst a, base_url ++ snd a)) (candidates doc []).
Proof.
  rewrite !candidates_filter_map, map_map. apply map_ext_in.
  intros m Hm. apply filter_In in Hm. destruct Hm as [_ Hadm].
  destruct (admissible_shape _ Hadm) as [href [title [-> _]]]. reflexivity.
Qed.

End FileFacts.

Import FileFacts.

(** X16. The text written holds one line feed for each aircraft, plus those
    that the names and the urls themselves hold; and a name with a line feed
    can be returned, since the class of white space of the classifier holds
    the line feed.  So the file has one line per aircraft only when no name
    and no url holds a line feed. *)
Theorem line_feeds_in_file (hash : str -> N) (base_url : str) :
  (forall filename l path text,
      save_aircraft_to_file filename l = Some (path, text) ->
      count_occ ascii_dec text newline
      = length l + count_occ ascii_dec (concat (map fst l)) newline
        + count_occ ascii_dec (concat (map snd l)) newline)
  /\ (exists doc name url,
        In (name, url) (extract_aircraft_from_html_content hash doc base_url)
        /\ In newline name).
Proof.
  split.
  - intros filename l path text H. destruct l as [|a l]; [discriminate|].
    assert (E : text = concat (map line (sorted_aircraft (a :: l))))
      by (unfold save_aircraft_to_file in H; inversion H; reflexivity).
    rewrite E, count_lines.
    pose proof (sorted_perm name_key (a :: l)) as HP.
    fold (sorted_aircraft (a :: l)) in HP.
    rewrite <- (Permutation_length HP).
    rewrite <- (count_concat_perm fst _ _ HP).
    rewrite <- (count_concat_perm snd _ _ HP). reflexivity.
  - exists (link_text (lit "/F-16") (lit " ") (lit "F-16" ++ [newline] ++ lit "A")),
           (lit "F-16" ++ [newline] ++ lit "A"), (base_url ++ lit "/F-16").
    split; [|vm_compute; tauto].
    vm_compute. left. reflexivity.
Qed.

(** X17. The base address only prefixes the urls: the aircraft found, their
    names and their order are those found with the empty base address. *)
Theorem base_url_only_prefixes (hash : str -> N) (doc base_url : str) :
  extract_aircraft_from_html_content hash doc base_url
  = map (fun a => (fst a, base_url ++ snd a))
        (extract_aircraft_from_html_content hash doc []).
Proof.
  unfold extract_aircraft_from_html_content.
  rewrite !remove_duplicates_first_occurrences.
  rewrite candidates_rebase.
  apply (first_occurrences_rebase base_url (candidates doc []) []).
Qed.

(** X18. Every element of [matches] has exactly two groups, so the loop
    that unpacks them cannot fail: the first group is a slash followed by at
    least one character, the second is not empty, and neither holds a double
    quote. *)
Theorem matches_are_pairs (doc : str) :
  Forall (fun m => exists href title,
                     m = [href; title]
                     /\ (exists p, href = "/"%char :: p /\ p <> [])
                     /\ NoQuote href /\ title <> [] /\ NoQuote title)
         (matches doc).
Proof.
  pose proof (Scan_occurrences _ _ (matches_Scan doc)) as HF.
  rewrite Forall_forall in *. intros m Hm.
  destruct (HF m Hm) as [href [title [w [-> Hocc]]]].
  destruct Hocc as [p [ws [-> [Hp [Hq [_ [_ [Ht [Htq _]]]]]]]]].
  exists ("/"%char :: p), title. repeat split; eauto.
  intros [E|Hin]; [discriminate E | exact (Hq Hin)].
Qed.

(* ================================================================== *)
(** ** The further statements at concrete inputs *)

(** The aircraft of the end-to-end scenario comes from its first link. *)
Lemma extracted_aircraft_sound_witness :
  In (lit "P-51", default_base_url ++ lit "/P-51")
     (extract_aircraft_from_html_content (fun _ => 0%N) scenario_doc
        default_base_url)
  /\ exists href,
       In [href; lit "P-51"] (matches scenario_doc)
       /\ default_base_url ++ lit "/P-51" = default_base_url ++ href
       /\ (exists p, href = "/"%char :: p /\ p <> [] /\ NoQuote p)
       /\ href_skipped href = false
       /\ title_skipped (lit "P-51") = false
       /\ is_aircraft_name (lit "P-51") = true.
Proof.
  assert (H : In (lit "P-51", default_base_url ++ lit "/P-51")
                 (extract_aircraft_from_html_content (fun _ => 0%N)
                    scenario_doc default_base_url))
    by (vm_compute; left; reflexivity).
  split; [exact H|].
  exact (extracted_aircraft_sound _ _ _ _ _ H).
Defined.

(** The first link of the scenario is kept. *)
Lemma admissible_link_url_kept_witness :
  In [lit "/P-51"; lit "P-51"] (matches scenario_doc)
  /\ href_skipped (lit "/P-51") = false
  /\ is_aircraft_name (lit "P-51") = true
  /\ exists name,
       In (name, default_base_url ++ lit "/P-51")
          (extract_aircraft_from_html_content (fun _ => 0%N) scenario_doc
             default_base_url).
Proof.
  assert (H1 : In [lit "/P-51"; lit "P-51"] (matches scenario_doc))
    by (vm_compute; left; reflexivity).
  assert (H2 : href_skipped (lit "/P-51") = false) by (vm_compute; reflexivity).
  assert (H3 : is_aircraft_name (lit "P-51") = true) by (vm_compute; reflexivity).
  split; [exact H1|]. split; [exact H2|]. split; [exact H3|].
  exact (admissible_link_url_kept (fun _ => 0%N) scenario_doc default_base_url
           (lit "/P-51") (lit "P-51") H1 H2 H3).
Defined.

(** A paragraph without link. *)
Lemma no_link_no_aircraft_witness :
  ~ Substring (lit "href=") (lit "<p>no aircraft here</p>")
  /\ extract_aircraft_from_html_content (fun _ => 0%N)
       (lit "<p>no aircraft here</p>") default_base_url = []
  /\ save_aircraft_to_file (lit "aircraft_pages_usa.txt")
       (extract_aircraft_from_html_content (fun _ => 0%N)
          (lit "<p>no aircraft here</p>") default_base_url) = None.
Proof.
  assert (H : ~ Substring (lit "href=") (lit "<p>no aircraft here</p>")).
  { intros Hs. apply PyFacts.contains_iff in Hs. vm_compute in Hs.
    discriminate Hs. }
  split; [exact H|].
  exact (no_link_no_aircraft (fun _ => 0%N) (lit "aircraft_pages_usa.txt")
           (lit "<p>no aircraft here</p>") default_base_url H).
Defined.

(** Two aircraft found in either order. *)
Lemma catalog_order_independent_witness :
  Permutation [(lit "B-17", lit "1"); (lit "A-20", lit "2")]
              [(lit "A-20", lit "2"); (lit "B-17", lit "1")]
  /\ NoDup (map name_key [(lit "B-17", lit "1"); (lit "A-20", lit "2")])
  /\ sorted_aircraft [(lit "B-17", lit "1"); (lit "A-20", lit "2")]
     = sorted_aircraft [(lit "A-20", lit "2"); (lit "B-17", lit "1")]
  /\ save_aircraft_to_file (lit "f")
       [(lit "B-17", lit "1"); (lit "A-20", lit "2")]
     = save_aircraft_to_file (lit "f")
         [(lit "A-20", lit "2"); (lit "B-17", lit "1")].
Proof.
  assert (H1 : Permutation [(lit "B-17", lit "1"); (lit "A-20", lit "2")]
                           [(lit "A-20", lit "2"); (lit "B-17", lit "1")])
    by apply perm_swap.
  assert (H2 : NoDup (map name_key
                        [(lit "B-17", lit "1"); (lit "A-20", lit "2")])).
  { simpl. constructor; [|constructor; [|constructor]].
    - intros [E|[]]. discriminate E.
    - intros []. }
  split; [exact H1|]. split; [exact H2|].
  exact (catalog_order_independent _ _ (lit "f") H1 H2).
Defined.

(** A line read as the pair it was made from. *)
Lemma line_determines_aircraft_witness :
  is_aircraft_name (fst (lit "P-51", lit "u")) = true
  /\ line (lit "P-51", lit "u") = lit "P-51|u" ++ [newline]
  /\ (lit "P-51", lit "u") = (lit "P-51", lit "u").
Proof.
  assert (H : is_aircraft_name (fst (lit "P-51", lit "u")) = true)
    by (vm_compute; reflexivity).
  split; [exact H|]. split; [reflexivity|].
  exact (line_determines_aircraft (lit "P-51", lit "u") (lit "P-51", lit "u")
           H H eq_refl).
Defined.
